(** * SHL assessment recommender: the retrieval and ranking pipeline

    A shallow embedding of [rag/retriever.py] and of the catalog loader and
    document builder of [rag/embeddings.py], followed by the properties of
    the pipeline that the specification states.

    Conventions of the embedding.
    - A Python [int] is a [Z]; [//] with a positive divisor is [Z.div].
    - A Python [str] is a [string] of ASCII characters.
    - A Python [set] of strings is a [gset string], a [dict] keyed by strings
      a [gmap string _].
    - A function that may raise returns a [result]; the hosted services (the
      language model and the vector store) are section variables giving the
      reply of the service to each request. *)

From Stdlib Require Import ZArith List Ascii String Bool Lia Permutation Sorted.
From stdpp Require Import base gmap strings list sets sorting pretty.

Open Scope string_scope.
Open Scope list_scope.
Open Scope Z_scope.

(** ** Python strings *)

Module PyStr.

(** [str.isspace] on the characters below 128. *)
Definition is_space (c : ascii) : bool :=
  let n := nat_of_ascii c in
  ((9 <=? n) && (n <=? 13) || (28 <=? n) && (n <=? 32))%nat.

(** [\d] of the [re] module on the characters below 128. *)
Definition is_digit (c : ascii) : bool :=
  let n := nat_of_ascii c in ((48 <=? n) && (n <=? 57))%nat.

Fixpoint lstrip (s : string) : string :=
  match s with
  | String c s' => if is_space c then lstrip s' else s
  | EmptyString => EmptyString
  end.

Fixpoint rstrip (s : string) : string :=
  match s with
  | EmptyString => EmptyString
  | String c s' =>
      match rstrip s' with
      | EmptyString => if is_space c then EmptyString else String c EmptyString
      | r => String c r
      end
  end.

(** [s.strip()] *)
Definition strip (s : string) : string := rstrip (lstrip s).

(** [s.split(sep)] for a one-character separator: never the empty list. *)
Fixpoint split (sep : ascii) (s : string) : list string :=
  match s with
  | EmptyString => [EmptyString]
  | String c s' =>
      if Ascii.eqb c sep then EmptyString :: split sep s'
      else match split sep s' with
           | x :: xs => String c x :: xs
           | [] => [String c EmptyString]
           end
  end.

(** [sep.join(l)] *)
Fixpoint join (sep : string) (l : list string) : string :=
  match l with
  | [] => EmptyString
  | [x] => x
  | x :: xs => x +:+ sep +:+ join sep xs
  end.

Fixpoint drop_chars (n : nat) (s : string) : string :=
  match n, s with
  | O, _ => s
  | S n', String _ s' => drop_chars n' s'
  | S _, EmptyString => EmptyString
  end.

(** [s.split(sep, 1)[1]] when [sep in s]: what follows the first
    occurrence of [sep]. *)
Fixpoint after_first (sep s : string) : option string :=
  if String.prefix sep s then Some (drop_chars (String.length sep) s)
  else match s with
       | EmptyString => None
       | String _ s' => after_first sep s'
       end.

Definition lower_char (c : ascii) : ascii :=
  let n := nat_of_ascii c in
  if ((65 <=? n) && (n <=? 90))%nat then ascii_of_nat (n + 32) else c.

Fixpoint lower (s : string) : string :=
  match s with
  | EmptyString => EmptyString
  | String c s' => String (lower_char c) (lower s')
  end.

(** The value of a string of decimal digits, [int(s)]. *)
Definition digit_value (c : ascii) : Z := Z.of_nat (nat_of_ascii c) - 48.

Fixpoint int_of_digits_from (acc : Z) (s : string) : Z :=
  match s with
  | EmptyString => acc
  | String c s' => int_of_digits_from (10 * acc + digit_value c) s'
  end.

Definition int_of_digits (s : string) : Z := int_of_digits_from 0 s.

(** The longest prefix of digits: what [\d+] matches at the start of [s]. *)
Fixpoint take_digits (s : string) : string :=
  match s with
  | String c s' => if is_digit c then String c (take_digits s') else EmptyString
  | EmptyString => EmptyString
  end.

(** [re.search(r"(\d+)", s)]: the leftmost position at which [\d+]
    matches, with its greedy match; [None] when there is no match. *)
Fixpoint search_digits (s : string) : option string :=
  match s with
  | EmptyString => None
  | String c s' =>
      if is_digit c then Some (take_digits s) else search_digits s'
  end.

End PyStr.

(** ** Exceptions *)

Inductive exn : Type :=
| ValidationError
| KeyError (key : string)
| ValueError (msg : string)
| ServiceError.

Inductive result (A : Type) : Type :=
| Ok (a : A)
| Raise (e : exn).
Arguments Ok {A} a.
Arguments Raise {A} e.

#[global] Instance result_bind : MBind result :=
  λ A B f r, match r with
             | Ok a => f a
             | Raise e => Raise e
             end.

(** ** Documents *)

(** The two storage shapes of the [test_type_codes] metadata value, and
    anything else. *)
Inductive codes_value : Type :=
| CodesStr (raw : string)
| CodesList (raw : list string)
| CodesOther.

(** A float as [int()] sees it: not a number, infinite, or finite with the
    given truncation toward zero. *)
Inductive pyfloat : Type :=
| FNaN
| FInf
| FFinite (trunc : Z).

(** The [duration] metadata value: text as the scraper writes it, or the
    float that the table reader puts in an empty cell. *)
Inductive scalar : Type :=
| SStr (s : string)
| SFloat (f : pyfloat).

(** The metadata bag of a document: the keys the pipeline reads, each
    [None] when the key is absent from the dict. *)
Record Metadata : Type := {
  assessment_url : option string;
  assessment_name : option string;
  test_type_codes : option codes_value;
  duration : option scalar;
  remote_testing : option string;
  adaptive_irt : option string;
}.

Record Document : Type := {
  page_content : string;
  metadata : Metadata;
}.

(** Truth value of [doc.metadata.get("assessment_url")], and of
    [doc.metadata.get("assessment_url", "")]: a present, non-empty string. *)
Definition truthy (url : option string) : bool :=
  match url with
  | Some s => negb (String.eqb s "")
  | None => false
  end.

Definition has_url (doc : Document) : bool :=
  truthy (assessment_url (metadata doc)).

(** [doc.metadata.get("assessment_url", "")] *)
Definition url_of (doc : Document) : string :=
  default "" (assessment_url (metadata doc)).

Definition TEST_TYPE_MAP : gmap string string :=
  list_to_map
    [ ("A", "Ability & Aptitude");
      ("B", "Biodata & Situational Judgment");
      ("C", "Competencies");
      ("D", "Development & 360");
      ("E", "Assessment Exercises");
      ("K", "Knowledge & Skills");
      ("P", "Personality & Behaviour");
      ("S", "Simulations") ].

Definition DOMAIN_TO_TEST_TYPES : gmap string (list string) :=
  list_to_map
    [ ("Ability & Aptitude", ["A"]);
      ("Biodata & Situational Judgment", ["B"]);
      ("Competencies", ["C"]);
      ("Development & 360", ["D"]);
      ("Assessment Exercises", ["E"]);
      ("Knowledge & Skills", ["K"]);
      ("Personality & Behaviour", ["P"]);
      ("Simulations", ["S"]) ].

Definition TOP_K_RETRIEVE : Z := 20.
Definition FINAL_K : Z := 7.

Definition nonempty (s : string) : bool := negb (String.eqb s "").

(** [extract_test_types]: the codes of a document, stripped, empty ones
    removed; a missing key reads as the empty list. *)
Definition extract_test_types (doc : Document) : list string :=
  match test_type_codes (metadata doc) with
  | None => []
  | Some (CodesStr raw) =>
      List.filter nonempty (map PyStr.strip (PyStr.split "," raw))
  | Some (CodesList raw) => List.filter nonempty (map PyStr.strip raw)
  | Some CodesOther => []
  end.

(** [semantic_test_types] *)
Definition semantic_test_types (codes : list string) : string :=
  PyStr.join ", " (omap (λ c, TEST_TYPE_MAP !! c) codes).

(** [extract_description] *)
Definition extract_description (doc : Document) : string :=
  let text := page_content doc in
  match PyStr.after_first "Description:" text with
  | Some desc => PyStr.strip desc
  | None => PyStr.strip text
  end.

(** ** Balanced selection *)

Record sel_state : Type := {
  selected : list Document;
  seen_urls : gset string;
  type_counts : gmap string Z;
}.

Definition len {A : Type} (l : list A) : Z := Z.of_nat (length l).

(** [max(1, k // max(1, len(required_test_types)))] *)
Definition per_type_target (required_test_types : list string) (k : Z) : Z :=
  Z.max 1 (k / Z.max 1 (len required_test_types)).

(** [{t: 0 for t in required_test_types}] *)
Definition init_counts (required_test_types : list string) : gmap string Z :=
  foldl (λ m t, <[t := 0]> m) ∅ required_test_types.

(** [[t for t in required_test_types if t in doc_types]] *)
Definition matching_types (required_test_types doc_types : list string)
  : list string :=
  List.filter (λ t, bool_decide (t ∈ doc_types)) required_test_types.

(** [type_counts[t]]; it is read for required types only, which are all
    keys of the dict (see [tracks]). *)
Definition count_of (counts : gmap string Z) (t : string) : Z :=
  default 0 (counts !! t).

(** [for t in matching_types: type_counts[t] += 1] *)
Definition bump (counts : gmap string Z) (matching : list string)
  : gmap string Z :=
  foldl (λ m t, <[t := count_of m t + 1]> m) counts matching.

(** [for doc in docs: if len(selected) >= k: break; body]: the shape of
    both loops. *)
Fixpoint loop_until_full (k : Z) (body : Document → sel_state → sel_state)
    (docs : list Document) (st : sel_state) : sel_state :=
  match docs with
  | [] => st
  | doc :: rest =>
      if bool_decide (k ≤ len (selected st)) then st
      else loop_until_full k body rest (body doc st)
  end.

(** The body of the first loop, after the test of [len(selected) >= k]. *)
Definition first_pass_body (required_test_types : list string) (target : Z)
    (doc : Document) (st : sel_state) : sel_state :=
  let url := url_of doc in
  if negb (nonempty url) || bool_decide (url ∈ seen_urls st) then st
  else
    let matching := matching_types required_test_types (extract_test_types doc) in
    match matching with
    | [] => st
    | _ =>
        if existsb (λ t, bool_decide (count_of (type_counts st) t < target))
             matching
        then {| selected := selected st ++ [doc];
                seen_urls := {[url]} ∪ seen_urls st;
                type_counts := bump (type_counts st) matching |}
        else st
    end.

Definition first_pass (required_test_types : list string) (k target : Z)
  : list Document → sel_state → sel_state :=
  loop_until_full k (first_pass_body required_test_types target).

(** The body of the second loop. *)
Definition second_pass_body (doc : Document) (st : sel_state) : sel_state :=
  let url := url_of doc in
  if nonempty url && negb (bool_decide (url ∈ seen_urls st))
  then {| selected := selected st ++ [doc];
          seen_urls := {[url]} ∪ seen_urls st;
          type_counts := type_counts st |}
  else st.

Definition second_pass (k : Z) : list Document → sel_state → sel_state :=
  loop_until_full k second_pass_body.

(** [l[:k]]: a negative [k] counts from the end. *)
Definition slice_to {A : Type} (k : Z) (l : list A) : list A :=
  if bool_decide (0 ≤ k) then take (Z.to_nat k) l
  else take (Z.to_nat (len l + k)) l.

Definition initial_state (required_test_types : list string) : sel_state :=
  {| selected := []; seen_urls := ∅;
     type_counts := init_counts required_test_types |}.

(** The state at the end of the first loop of [balanced_selection]. *)
Definition first_pass_result (docs : list Document)
    (required_test_types : list string) (k : Z) : sel_state :=
  first_pass required_test_types k (per_type_target required_test_types k)
    docs (initial_state required_test_types).

Definition balanced_selection (docs : list Document)
    (required_test_types : list string) (k : Z) : list Document :=
  let st1 := first_pass_result docs required_test_types k in
  let st2 := second_pass k docs st1 in
  slice_to k (selected st2).

(** ** Language-model schemas *)

(** The [Literal] type of [QueryIntent.domains]. *)
Definition DomainType : list string :=
  [ "Ability & Aptitude"; "Biodata & Situational Judgment"; "Competencies";
    "Development & 360"; "Assessment Exercises"; "Knowledge & Skills";
    "Personality & Behaviour"; "Simulations" ].

(** Validation of a reply against [QueryIntent]. *)
Definition QueryIntent_validate (domains : list string) : result (list string) :=
  if forallb (λ d, bool_decide (d ∈ DomainType)) domains
  then Ok domains else Raise ValidationError.

(** Validation of a reply against [ScoreList]: [conint(ge=1, le=5)] on
    every element, nothing on the length. *)
Definition ScoreList_validate (scores : list Z) : result (list Z) :=
  if forallb (λ s, (1 <=? s) && (s <=? 5)) scores
  then Ok scores else Raise ValidationError.

(** [infer_required_test_types]. The order in which Python lists a set is
    not fixed; [elements] stands for it, and nothing below depends on it. *)
Definition infer_required_test_types (domains : list string) : list string :=
  elements
    (foldl (λ (acc : gset string) d,
              acc ∪ list_to_set (default [] (DOMAIN_TO_TEST_TYPES !! d)))
       ∅ domains).

(** The safety fallback of [recommend]. *)
Definition with_fallback (required_test_types : list string) : list string :=
  match required_test_types with
  | [] => ["K"; "P"]
  | _ => required_test_types
  end.

(** ** Ranking *)

(** [sorted(l, key=key, reverse=True)]: the list is reversed, sorted
    stably in ascending order of the key, and reversed again. *)
Fixpoint insert_by {A : Type} (key : A → Z) (x : A) (l : list A) : list A :=
  match l with
  | [] => [x]
  | y :: l' =>
      if bool_decide (key x ≤ key y) then x :: l else y :: insert_by key x l'
  end.

Definition sort_by {A : Type} (key : A → Z) (l : list A) : list A :=
  foldr (insert_by key) [] l.

Definition sorted_reverse {A : Type} (key : A → Z) (l : list A) : list A :=
  reverse (sort_by key (reverse l)).

(** [sorted(zip(balanced, scores), key=lambda x: x[1], reverse=True)] *)
Definition rank (balanced : list Document) (scores : list Z)
  : list (Document * Z) :=
  sorted_reverse snd (zip balanced scores).

(** ** Emission *)

(** [float(s)] for a string [s] without a digit: only the literals
    [nan], [inf] and [infinity], signed or not, in any case and between
    white space, are floats. [None] is the [ValueError]. *)
Definition float_of_digitless (s : string) : option pyfloat :=
  let t := PyStr.lower (PyStr.strip s) in
  let body := match t with
              | String "+" r => r
              | String "-" r => r
              | _ => t
              end in
  if String.eqb body "nan" then Some FNaN
  else if String.eqb body "inf" || String.eqb body "infinity" then Some FInf
  else None.

(** [int(f)]: [None] is the [ValueError] or [OverflowError]. *)
Definition int_of_float (f : pyfloat) : option Z :=
  match f with
  | FFinite z => Some z
  | FNaN | FInf => None
  end.

(** [duration_as_int]. The conversion through [float] is reached by a
    string only when the search found no digit in it. *)
Definition duration_as_int (raw : option scalar) : option Z :=
  match raw with
  | None => None
  | Some (SStr s) =>
      match PyStr.search_digits s with
      | Some m => Some (PyStr.int_of_digits m)
      | None => float_of_digitless s ≫= int_of_float
      end
  | Some (SFloat f) => int_of_float f
  end.

Module Recommendation.
Record t : Type := {
  url : string;
  name : option string;
  adaptive_support : option string;
  description : string;
  duration : option Z;
  remote_support : option string;
  test_type : list string;
}.
End Recommendation.

(** The dict appended to [recommended] for [doc], whose url is [url]. *)
Definition to_recommendation (url : string) (doc : Document)
  : Recommendation.t :=
  {| Recommendation.url := url;
     Recommendation.name := assessment_name (metadata doc);
     Recommendation.adaptive_support := adaptive_irt (metadata doc);
     Recommendation.description := extract_description doc;
     Recommendation.duration := duration_as_int (duration (metadata doc));
     Recommendation.remote_support := remote_testing (metadata doc);
     Recommendation.test_type :=
       map (λ c, default c (TEST_TYPE_MAP !! c)) (extract_test_types doc) |}.

(** The last loop of [recommend]. *)
Fixpoint emit (k : Z) (ranked : list (Document * Z))
    (recommended : list Recommendation.t) (seen_urls : gset string)
  : list Recommendation.t :=
  match ranked with
  | [] => recommended
  | (doc, _) :: rest =>
      match assessment_url (metadata doc) with
      | Some url =>
          if nonempty url && negb (bool_decide (url ∈ seen_urls)) then
            let recommended' := recommended ++ [to_recommendation url doc] in
            if bool_decide (k ≤ len recommended') then recommended'
            else emit k rest recommended' ({[url]} ∪ seen_urls)
          else emit k rest recommended seen_urls
      | None => emit k rest recommended seen_urls
      end
  end.

(** ** The orchestrator *)

(** One merge loop of the retrieval: append the documents with a new,
    non-empty url. *)
Definition merge_step (st : list Document * gset string) (doc : Document)
  : list Document * gset string :=
  match assessment_url (metadata doc) with
  | Some url =>
      if nonempty url && negb (bool_decide (url ∈ st.2))
      then (st.1 ++ [doc], {[url]} ∪ st.2)
      else st
  | None => st
  end.

Definition merge (docs : list Document) (st : list Document * gset string)
  : list Document * gset string :=
  foldl merge_step st docs.

Section Pipeline.

(** The reply of the model to the intent prompt of a query, decoded. *)
Variable llm_intent : string → result (list string).
(** The reply of the model to the scoring prompt, decoded. *)
Variable llm_scores : string → list Document → result (list Z).
(** [vectorstore.similarity_search(query, k, filter)]; the filter is the
    name of a flag required to be true. *)
Variable similarity_search :
  string → Z → option string → result (list Document).

Definition detect_query_intent (query : string) : result (list string) :=
  match llm_intent query ≫= QueryIntent_validate with
  | Ok domains => Ok domains
  | Raise ValidationError => Ok []
  | Raise e => Raise e
  end.

(** The prompt reads [doc.metadata['assessment_name']] of every document
    before the model is called. *)
Definition score_with_llm (query : string) (docs : list Document)
  : result (list Z) :=
  if forallb (λ d, bool_decide (is_Some (assessment_name (metadata d)))) docs
  then llm_scores query docs ≫= ScoreList_validate
  else Raise (KeyError "assessment_name").

Fixpoint retrieve_per_type (query : string) (per_type_k : Z)
    (types : list string) (st : list Document * gset string)
  : result (list Document * gset string) :=
  match types with
  | [] => Ok st
  | t :: rest =>
      docs_for_type ←
        similarity_search query per_type_k (Some ("is_type_" +:+ t));
      retrieve_per_type query per_type_k rest (merge docs_for_type st)
  end.

Definition retrieve (query : string) (required_test_types : list string)
  : result (list Document) :=
  let per_type_k :=
    Z.max 1 (TOP_K_RETRIEVE / Z.max 1 (len required_test_types)) in
  st ← retrieve_per_type query per_type_k required_test_types ([], ∅);
  if bool_decide (len st.1 < TOP_K_RETRIEVE) then
    extra_docs ← similarity_search query (TOP_K_RETRIEVE - len st.1) None;
    Ok (merge extra_docs st).1
  else Ok st.1.

(** Steps 2 to 4 of [recommend], once the required types are known. *)
Definition recommend_for_types (required_test_types : list string)
    (query : string) (k : Z) : result (list Recommendation.t) :=
  retrieved ← retrieve query required_test_types;
  let balanced := balanced_selection retrieved required_test_types k in
  scores ← score_with_llm query balanced;
  Ok (emit k (rank balanced scores) [] ∅).

Definition recommend (query : string) (k : Z)
  : result (list Recommendation.t) :=
  domains ← detect_query_intent query;
  recommend_for_types (with_fallback (infer_required_test_types domains))
    query k.

End Pipeline.

(** ** Catalog loader and document builder ([rag/embeddings.py]) *)

Module Embeddings.

Definition TEST_TYPE_MAP : gmap string string :=
  list_to_map
    [ ("A", "Ability and aptitude assessments");
      ("B", "Biodata and situational judgment assessments");
      ("C", "Competency-based assessments");
      ("D", "Development and 360-degree feedback assessments");
      ("E", "Assessment exercises");
      ("K", "Knowledge and skills assessments");
      ("P", "Personality and behavioral assessments");
      ("S", "Simulation-based assessments") ].

Record DataFrame : Type := {
  columns : list string;
  rows : list (list string);
}.

Definition required_columns : list string :=
  [ "name"; "url"; "description"; "test_type"; "duration";
    "remote_testing"; "adaptive_irt" ].

(** The loop over [required_columns]: the first missing one raises. *)
Fixpoint check_columns (required : list string) (df : DataFrame)
  : result unit :=
  match required with
  | [] => Ok ()
  | col :: rest =>
      if bool_decide (col ∈ columns df) then check_columns rest df
      else Raise (ValueError ("Missing required column: " +:+ col))
  end.

(** [load_catalog]; [read_csv] is the reading of the file. *)
Definition load_catalog (read_csv : string → result DataFrame)
    (csv_path : string) : result DataFrame :=
  df ← read_csv csv_path;
  _ ← check_columns required_columns df;
  if bool_decide (len (rows df) < 377) then
    Raise (ValueError ("Expected ≥ 377 individual test solutions, found "
                       +:+ pretty (len (rows df))))
  else Ok df.

(** [expand_test_types]; [None] is a missing value. *)
Definition expand_test_types (test_type_str : option string) : string :=
  match test_type_str with
  | None => ""
  | Some s =>
      let codes := map PyStr.strip (PyStr.split "," s) in
      PyStr.join ", " (omap (λ code, TEST_TYPE_MAP !! code) codes)
  end.

(** A row of the catalog table, as [row_to_document] reads it: the cells
    of text, [test_type] being [None] for a missing value ([pd.isna]),
    [description] as the f-string renders it. *)
Module CatalogRow.
Record t : Type := {
  name : string;
  url : string;
  description : string;
  test_type : option string;
  duration : scalar;
  remote_testing : string;
  adaptive_irt : string;
}.
End CatalogRow.

Definition nl : string := String "010" EmptyString.

(** [str(row["test_type"])]: a missing value prints as [nan]. *)
Definition raw_codes (row : CatalogRow.t) : string :=
  default "nan" (CatalogRow.test_type row).

(** [[c.strip() for c in raw_codes.split(",") if c.strip()]] *)
Definition row_codes (row : CatalogRow.t) : list string :=
  List.filter nonempty (map PyStr.strip (PyStr.split "," (raw_codes row))).

(** The [is_type_<code>] flags of the metadata, one per key of the map. *)
Definition type_flags (row : CatalogRow.t) : gmap string bool :=
  list_to_map
    ((λ code, ("is_type_" +:+ code, bool_decide (code ∈ row_codes row)))
       <$> (map_to_list TEST_TYPE_MAP).*1).

(** The text of the document: the f-string, stripped. *)
Definition page_content_of (row : CatalogRow.t) : string :=
  PyStr.strip
    (nl +:+ nl +:+ "Description:" +:+ nl +:+ CatalogRow.description row
     +:+ nl +:+ nl +:+ "Assessment Categories:" +:+ nl
     +:+ expand_test_types (CatalogRow.test_type row) +:+ nl +:+ "    ").

(** [row_to_document]: the document with the metadata keys that the
    retriever reads; the flags of the same metadata, which the filter of
    the vector store reads, are [type_flags]. *)
Definition row_to_document (row : CatalogRow.t) : Document :=
  {| page_content := page_content_of row;
     metadata :=
       {| assessment_url := Some (CatalogRow.url row);
          assessment_name := Some (CatalogRow.name row);
          test_type_codes := Some (CodesStr (raw_codes row));
          duration := Some (CatalogRow.duration row);
          remote_testing := Some (CatalogRow.remote_testing row);
          adaptive_irt := Some (CatalogRow.adaptive_irt row) |} |}.

End Embeddings.

(** ** Submission file ([rag/generate_submission.py]) *)

(** [row[col]] printed by [str]: the cell under the first column of that
    name; a cell that the row does not have is a missing value. *)
Definition cell (columns : list string) (row : list string) (col : string)
  : string :=
  default "nan" (list_find (λ c, c = col) columns ≫= λ ic, row !! ic.1).

Section Submission.

Variable llm_intent : string → result (list string).
Variable llm_scores : string → list Document → result (list Z).
Variable similarity_search :
  string → Z → option string → result (list Document).
(** [pd.read_csv] *)
Variable read_csv : string → result Embeddings.DataFrame.

(** The rows appended for one query: a row per recommendation with a
    url. *)
Definition rows_of_query (q : string) (recs : list Recommendation.t)
  : list (string * string) :=
  omap (λ rec, let url := Recommendation.url rec in
               if nonempty url then Some (q, url) else None) recs.

(** The loop over the rows of the input table. *)
Fixpoint submission_loop (columns : list string) (query_col : string)
    (top_k : Z) (table : list (list string)) (rows : list (string * string))
  : result (list (string * string)) :=
  match table with
  | [] => Ok rows
  | row :: rest =>
      let q := PyStr.strip (cell columns row query_col) in
      if nonempty q then
        rec_output ← recommend llm_intent llm_scores similarity_search
                       q FINAL_K;
        let recs := slice_to top_k rec_output in
        submission_loop columns query_col top_k rest
          (rows ++ rows_of_query q recs)
      else submission_loop columns query_col top_k rest rows
  end.

(** [generate_submission]: the rows written to the output file. *)
Definition generate_submission (input_queries_csv : string) (top_k : Z)
  : result (list (string * string)) :=
  df ← read_csv input_queries_csv;
  match list_find (λ c, PyStr.lower c = "query") (Embeddings.columns df) with
  | None =>
      Raise (ValueError "Input CSV must contain a `Query` or `query` column.")
  | Some (_, query_col) =>
      submission_loop (Embeddings.columns df) query_col top_k
        (Embeddings.rows df) []
  end.

End Submission.

(** ** Recall at k ([rag/evaluation.py]) *)

(** The float that [_recall_at_k] returns: the literal [0.0], or the
    quotient of two counts. *)
Inductive quotient : Type :=
| Float0
| Div (hits total : Z).

Section Recall.

(** [_normalize_url]; its parsing is that of [urllib], and what follows
    holds for any function of urls. *)
Variable _normalize_url : string → string.

(** [rel], after [rel.discard("")] *)
Definition relevant_set (relevant : list string) : gset string :=
  list_to_set
    (_normalize_url
       <$> List.filter (λ u, nonempty (PyStr.strip u)) relevant) ∖ {[""]}.

(** [top_k], after [top_k.discard("")] *)
Definition top_k_set (predicted : list string) (k : Z) : gset string :=
  list_to_set (_normalize_url <$> slice_to k predicted) ∖ {[""]}.

Definition _recall_at_k (relevant predicted : list string) (k : Z)
  : quotient :=
  let rel := relevant_set relevant in
  if bool_decide (rel = ∅) then Float0
  else
    let top_k := top_k_set predicted k in
    if bool_decide (top_k = ∅) then Float0
    else Div (Z.of_nat (size (rel ∩ top_k))) (Z.of_nat (size rel)).

End Recall.

(** * Vocabulary of the statements *)

Fixpoint string_forall (p : ascii → bool) (s : string) : bool :=
  match s with
  | EmptyString => true
  | String c s' => p c && string_forall p s'
  end.

Definition no_digit (s : string) : bool :=
  string_forall (λ c, negb (PyStr.is_digit c)) s.

Definition all_digits (s : string) : bool := string_forall PyStr.is_digit s.

Definition starts_without_digit (s : string) : bool :=
  match s with
  | EmptyString => true
  | String c _ => negb (PyStr.is_digit c)
  end.


Definition in_range (s : Z) : Prop := 1 ≤ s ≤ 5.

Definition urls (docs : list Document) : list string := url_of <$> docs.

(** De-duplication by url, in order: a document is kept when no document
    before it has its url. *)
Fixpoint dedup_from (seen : list string) (docs : list Document)
  : list Document :=
  match docs with
  | [] => []
  | doc :: rest =>
      if bool_decide (url_of doc ∈ seen) then dedup_from seen rest
      else doc :: dedup_from (url_of doc :: seen) rest
  end.

Definition dedup_by_url (docs : list Document) : list Document :=
  dedup_from [] docs.

(** The running accept-count of a code: the number of accepted documents
    that carry it. *)
Definition accept_count (t : string) (accepted : list Document) : Z :=
  len (List.filter (λ d, bool_decide (t ∈ extract_test_types d)) accepted).

(** The acceptance test of the first pass in the words of the
    specification: the url is new, and some required code of the document
    has its accept-count below the target. *)
Definition spec_accepts (required_codes : list string) (target : Z)
    (accepted : list Document) (doc : Document) : bool :=
  bool_decide (url_of doc ∉ urls accepted)
  && existsb (λ t, bool_decide (t ∈ extract_test_types doc)
                   && bool_decide (accept_count t accepted < target))
       required_codes.

Definition spec_step (required_codes : list string) (target : Z)
    (accepted : list Document) (doc : Document) : list Document :=
  if spec_accepts required_codes target accepted doc
  then accepted ++ [doc] else accepted.

(** The first pass in the words of the specification: one forward pass,
    in input order. *)
Definition spec_first_pass (required_codes : list string) (k : Z)
    (docs : list Document) : list Document :=
  foldl (spec_step required_codes (per_type_target required_codes k)) [] docs.

(** The acceptance test of the code: that of the specification, for a
    document with a non-empty url, while fewer than [k] are accepted. *)
Definition capped_accepts (required_codes : list string) (k target : Z)
    (accepted : list Document) (doc : Document) : bool :=
  bool_decide (len accepted < k) && nonempty (url_of doc)
  && spec_accepts required_codes target accepted doc.

Definition capped_step (required_codes : list string) (k target : Z)
    (accepted : list Document) (doc : Document) : list Document :=
  if capped_accepts required_codes k target accepted doc
  then accepted ++ [doc] else accepted.

Definition capped_first_pass (required_codes : list string) (k : Z)
    (docs : list Document) : list Document :=
  foldl (capped_step required_codes k (per_type_target required_codes k))
    [] docs.

(** What a loop body may do to the state: nothing, or append a document
    with a new, non-empty url and record the url. *)
Definition appended (doc : Document) (st st' : sel_state) : Prop :=
  st' = st
  ∨ (selected st' = selected st ++ [doc]
     ∧ seen_urls st' = {[url_of doc]} ∪ seen_urls st
     ∧ nonempty (url_of doc) = true
     ∧ url_of doc ∉ seen_urls st).

(** The invariant of both loops of the selection over the candidates
    [docs0]. *)
Record sel_inv (k : Z) (docs0 : list Document) (st : sel_state) : Prop := {
  inv_seen : ∀ u, u ∈ seen_urls st ↔ u ∈ urls (selected st);
  inv_nodup : NoDup (urls (selected st));
  inv_subset : ∀ d, d ∈ selected st → d ∈ docs0;
  inv_len : len (selected st) ≤ Z.max 0 k;
}.

(** The recommendation built from a document. *)
Definition recommendation_of (doc : Document) : Recommendation.t :=
  to_recommendation (url_of doc) doc.

(** Documents for the concrete cases. *)
Definition catalog_doc (url : option string) (codes : string) : Document :=
  {| page_content := "Description: a test";
     metadata := {| assessment_url := url;
                    assessment_name := Some "Test";
                    test_type_codes := Some (CodesStr codes);
                    duration := Some (SStr "45 minutes");
                    remote_testing := Some "Yes";
                    adaptive_irt := Some "No" |} |}.

Definition doc_a : Document := catalog_doc (Some "https://shl/a") "K".
Definition doc_b : Document := catalog_doc (Some "https://shl/b") "P".
Definition doc_x : Document := catalog_doc (Some "https://shl/x") "X".
Definition doc_nourl : Document := catalog_doc None "K".

(** The part of the quotas used up: each required code counts up to the
    target. *)
Definition filled (required_codes : list string) (target : Z)
    (accepted : list Document) : Z :=
  foldr (λ t s, Z.min (accept_count t accepted) target + s) 0 required_codes.

(** The state the code keeps agrees with the accepted list: the seen urls
    are those of the accepted documents, and every required code is a key
    of the counters, with its accept-count. *)
Record tracks (required : list string) (st : sel_state) : Prop := {
  tracks_seen : ∀ u, u ∈ seen_urls st ↔ u ∈ urls (selected st);
  tracks_counts : ∀ t, t ∈ required →
    type_counts st !! t = Some (accept_count t (selected st));
}.

(** A table with every required column and just enough rows. *)
Definition full_table : Embeddings.DataFrame :=
  {| Embeddings.columns := "id" :: Embeddings.required_columns;
     Embeddings.rows := replicate 377 [] |}.

(** Replies of the services and tables for the concrete cases. *)
Definition search_two_types (query : string) (k : Z) (flag : option string)
  : result (list Document) :=
  match flag with
  | Some "is_type_K" => Ok [doc_a; doc_nourl]
  | Some "is_type_P" => Ok [doc_b; doc_a]
  | _ => Ok [doc_x; doc_b]
  end.

Definition intent_knowledge (query : string) : result (list string) :=
  Ok ["Knowledge & Skills"].

Definition scores_by_position (query : string) (docs : list Document)
  : result (list Z) :=
  Ok (take (length docs) [2; 5; 5; 1; 3; 4; 2]).

Definition example_recommended : list Recommendation.t :=
  Eval vm_compute in
    match recommend intent_knowledge scores_by_position search_two_types
            "java developer" 7 with
    | Ok recommended => recommended
    | Raise _ => []
    end.

Definition queries_table : Embeddings.DataFrame :=
  {| Embeddings.columns := ["id"; "Query"];
     Embeddings.rows := [["1"; " java developer "]; ["2"; "   "]; ["3"]] |}.

Definition example_rows : list (string * string) :=
  Eval vm_compute in
    match generate_submission intent_knowledge scores_by_position
            search_two_types (λ _, Ok queries_table) "queries.csv" 10 with
    | Ok rows => rows
    | Raise _ => []
    end.

Definition row_without_type : Embeddings.CatalogRow.t :=
  {| Embeddings.CatalogRow.name := "Test";
     Embeddings.CatalogRow.url := "https://shl/n";
     Embeddings.CatalogRow.description := "A test.";
     Embeddings.CatalogRow.test_type := None;
     Embeddings.CatalogRow.duration := SStr "N/A";
     Embeddings.CatalogRow.remote_testing := "Yes";
     Embeddings.CatalogRow.adaptive_irt := "No" |}.

(** * Properties *)

Lemma bind_Ok {A B : Type} (a : A) (f : A → result B) : Ok a ≫= f = f a.
Proof. reflexivity. Qed.

Lemma bind_Raise {A B : Type} (e : exn) (f : A → result B) :
  @Raise A e ≫= f = Raise e.
Proof. reflexivity. Qed.

(** ** Duration parsing *)

Lemma take_digits_run (ds post : string) :
  all_digits ds = true → starts_without_digit post = true →
  PyStr.take_digits (ds +:+ post) = ds.
Proof.
  intros Hds Hpost. induction ds as [|c ds IH]; simpl in *.
  - destruct post as [|c post]; simpl in *; [done|].
    by destruct (PyStr.is_digit c).
  - apply andb_true_iff in Hds as [Hc Hds]. rewrite Hc. by rewrite IH.
Qed.

Lemma search_digits_first_run (pre ds post : string) :
  no_digit pre = true → all_digits ds = true → ds ≠ "" →
  starts_without_digit post = true →
  PyStr.search_digits (pre +:+ ds +:+ post) = Some ds.
Proof.
  intros Hpre Hds Hne Hpost. induction pre as [|c pre IH]; simpl in *.
  - destruct ds as [|d ds]; [done|]. simpl in *.
    apply andb_true_iff in Hds as [Hd Hds]. rewrite Hd.
    by rewrite take_digits_run.
  - apply andb_true_iff in Hpre as [Hc Hpre].
    apply negb_true_iff in Hc. rewrite Hc. by apply IH.
Qed.

Lemma search_digits_none (s : string) :
  no_digit s = true → PyStr.search_digits s = None.
Proof.
  induction s as [|c s IH]; simpl; [done|]. intros H.
  apply andb_true_iff in H as [Hc Hs]. apply negb_true_iff in Hc.
  rewrite Hc. by apply IH.
Qed.

Lemma float_of_digitless_no_int (s : string) :
  float_of_digitless s ≫= int_of_float = None.
Proof.
  unfold float_of_digitless.
  repeat match goal with
         | |- context [if ?b then _ else _] => destruct b
         end; reflexivity.
Qed.

(** C7. [duration_as_int] returns the value of the first maximal run of
    digits of a string ([pre] has no digit, [ds] is a non-empty run of
    digits, [post] does not go on with a digit), and null for a string
    without a digit and for an absent field; "45 minutes" gives 45, "N/A"
    null, "" null and "60" gives 60. *)
Theorem duration_as_int_first_integer (pre ds post : string) :
  no_digit pre = true → all_digits ds = true → ds ≠ "" →
  starts_without_digit post = true →
  duration_as_int (Some (SStr (pre +:+ ds +:+ post)))
    = Some (PyStr.int_of_digits ds)
  ∧ duration_as_int (Some (SStr pre)) = None
  ∧ duration_as_int None = None
  ∧ duration_as_int (Some (SStr "45 minutes")) = Some 45
  ∧ duration_as_int (Some (SStr "N/A")) = None
  ∧ duration_as_int (Some (SStr "")) = None
  ∧ duration_as_int (Some (SStr "60")) = Some 60.
Proof.
  intros Hpre Hds Hne Hpost. split_and!; try reflexivity.
  - unfold duration_as_int. by rewrite search_digits_first_run.
  - unfold duration_as_int. rewrite search_digits_none by done.
    apply float_of_digitless_no_int.
Qed.

Lemma duration_as_int_first_integer_witness :
  duration_as_int (Some (SStr "about 30 to 45 min")) = Some 30
  ∧ duration_as_int (Some (SStr "about ")) = None.
Proof.
  pose proof (duration_as_int_first_integer "about " "30" " to 45 min"
                eq_refl eq_refl ltac:(discriminate) eq_refl) as H.
  split; [exact (proj1 H) | exact (proj1 (proj2 H))].
Defined.

(** ** Catalog loader *)

Lemma check_columns_ok (required : list string) (df : Embeddings.DataFrame) :
  (∀ col, col ∈ required → col ∈ Embeddings.columns df) →
  Embeddings.check_columns required df = Ok ().
Proof.
  induction required as [|c required IH]; intros Hall; simpl; [done|].
  rewrite bool_decide_eq_true_2 by (apply Hall; left).
  apply IH. intros col Hcol. apply Hall. by right.
Qed.

Lemma check_columns_missing (required : list string)
    (df : Embeddings.DataFrame) (col : string) :
  col ∈ required → col ∉ Embeddings.columns df →
  ∃ c, c ∈ required ∧ (c ∉ Embeddings.columns df)
       ∧ Embeddings.check_columns required df
         = Raise (ValueError ("Missing required column: " +:+ c)).
Proof.
  induction required as [|c required IH]; intros Hin Hmiss.
  - by apply elem_of_nil in Hin.
  - simpl. case_bool_decide as Hc.
    + apply elem_of_cons in Hin as [->|Hin]; [done|].
      destruct (IH Hin Hmiss) as (c' & Hc' & Hn & Heq).
      exists c'. split_and!; [by right|done|done].
    + exists c. split_and!; [by left|done|done].
Qed.

(** C9. On a table [df] read from the file, [load_catalog] raises the
    missing-column error as soon as one of the seven required columns is
    absent, raises an error whenever there are fewer than 377 rows (the
    row-count error when the columns are all there), and otherwise returns
    [df] itself. Both errors are the [ValueError] of the source. *)
Theorem load_catalog_contract (read_csv : string → result Embeddings.DataFrame)
    (csv_path : string) (df : Embeddings.DataFrame) :
  read_csv csv_path = Ok df →
  Embeddings.required_columns
    = ["name"; "url"; "description"; "test_type"; "duration";
       "remote_testing"; "adaptive_irt"]
  ∧ (∀ col, col ∈ Embeddings.required_columns →
            col ∉ Embeddings.columns df →
       ∃ c, c ∈ Embeddings.required_columns ∧ (c ∉ Embeddings.columns df)
            ∧ Embeddings.load_catalog read_csv csv_path
              = Raise (ValueError ("Missing required column: " +:+ c)))
  ∧ (len (Embeddings.rows df) < 377 →
       ∃ msg, Embeddings.load_catalog read_csv csv_path
              = Raise (ValueError msg))
  ∧ ((∀ col, col ∈ Embeddings.required_columns →
             col ∈ Embeddings.columns df) →
     len (Embeddings.rows df) < 377 →
       Embeddings.load_catalog read_csv csv_path
       = Raise (ValueError
                  ("Expected ≥ 377 individual test solutions, found "
                   +:+ pretty (len (Embeddings.rows df)))))
  ∧ ((∀ col, col ∈ Embeddings.required_columns →
             col ∈ Embeddings.columns df) →
     377 ≤ len (Embeddings.rows df) →
       Embeddings.load_catalog read_csv csv_path = Ok df).
Proof.
  intros Hread. unfold Embeddings.load_catalog. rewrite Hread, bind_Ok.
  split_and!.
  - reflexivity.
  - intros col Hin Hmiss.
    destruct (check_columns_missing _ _ _ Hin Hmiss) as (c & Hc & Hn & Heq).
    exists c. split_and!; [done..|]. by rewrite Heq.
  - intros Hlen.
    destruct (Embeddings.check_columns Embeddings.required_columns df)
      as [[]|e] eqn:Hchk.
    + rewrite bind_Ok, bool_decide_eq_true_2 by done. eauto.
    + rewrite bind_Raise. revert Hchk.
      generalize Embeddings.required_columns. intros l.
      induction l as [|c l IH]; simpl; [done|].
      case_bool_decide; [done|]. intros [= <-]. eauto.
  - intros Hall Hlen. rewrite check_columns_ok, bind_Ok by done.
    by rewrite bool_decide_eq_true_2.
  - intros Hall Hlen. rewrite check_columns_ok, bind_Ok by done.
    by rewrite bool_decide_eq_false_2 by lia.
Qed.

Lemma load_catalog_contract_witness :
  Embeddings.load_catalog (λ _, Ok full_table) "data/shl_catelog.csv"
  = Ok full_table.
Proof.
  refine (proj2 (proj2 (proj2 (proj2
    (load_catalog_contract (λ _, Ok full_table) "data/shl_catelog.csv"
       full_table eq_refl)))) _ _).
  - intros col Hcol. by right.
  - vm_compute. discriminate.
Defined.

(** ** Intent classification and the default codes *)

Lemma infer_no_domain : infer_required_test_types [] = [].
Proof. unfold infer_required_test_types. simpl. apply elements_empty. Qed.

Lemma with_fallback_nonempty (types : list string) : with_fallback types ≠ [].
Proof. by destruct types. Qed.

(** C6. When the reply of the model fails the validation of
    [QueryIntent], [detect_query_intent] returns the empty list instead of
    raising, and [recommend] goes on with the codes K and P; whatever the
    domains, the codes [recommend] goes on with are never empty. *)
Theorem intent_failure_falls_back
    (llm_intent : string → result (list string))
    (llm_scores : string → list Document → result (list Z))
    (similarity_search : string → Z → option string → result (list Document))
    (query : string) (k : Z) :
  llm_intent query ≫= QueryIntent_validate = Raise ValidationError →
  detect_query_intent llm_intent query = Ok []
  ∧ recommend llm_intent llm_scores similarity_search query k
    = recommend_for_types llm_scores similarity_search ["K"; "P"] query k
  ∧ (∀ types, types = [] → with_fallback types = ["K"; "P"])
  ∧ (∀ domains, with_fallback (infer_required_test_types domains) ≠ []).
Proof.
  intros Hfail.
  assert (detect_query_intent llm_intent query = Ok []) as Hdetect.
  { unfold detect_query_intent. by rewrite Hfail. }
  split_and!.
  - done.
  - unfold recommend. by rewrite Hdetect, bind_Ok, infer_no_domain.
  - by intros types ->.
  - intros domains. apply with_fallback_nonempty.
Qed.

Lemma intent_failure_falls_back_witness :
  detect_query_intent (λ _, Ok ["Cooking"]) "need a chef" = Ok [].
Proof.
  exact (proj1 (intent_failure_falls_back
                  (λ _, Ok ["Cooking"]) (λ _ _, Ok []) (λ _ _ _, Ok [])
                  "need a chef" 7 eq_refl)).
Defined.

(** ** Relevance scoring *)

Lemma ScoreList_validate_Ok (raw scores : list Z) :
  ScoreList_validate raw = Ok scores → scores = raw ∧ Forall in_range scores.
Proof.
  unfold ScoreList_validate.
  destruct (forallb _ raw) eqn:Hall; [|done]. intros [= <-]. split; [done|].
  apply Forall_forall. intros s Hs.
  rewrite forallb_forall in Hall. apply list_elem_of_In in Hs.
  specialize (Hall s Hs). unfold in_range. lia.
Qed.

Lemma ScoreList_validate_Raise (raw : list Z) (e : exn) :
  ScoreList_validate raw = Raise e →
  e = ValidationError ∧ Exists (λ s, ¬ in_range s) raw.
Proof.
  unfold ScoreList_validate.
  destruct (forallb _ raw) eqn:Hall; [done|]. intros [= <-]. split; [done|].
  apply Exists_exists.
  induction raw as [|s raw IH]; simpl in *; [done|].
  apply andb_false_iff in Hall as [Hs|Hraw].
  - exists s. split; [by left|]. unfold in_range. lia.
  - destruct (IH Hraw) as (s' & Hin & Hout). exists s'. split; [by right|done].
Qed.

(** C2, as the code has it. [score_with_llm] either returns the sequence of
    the model unchanged, every element in [1,5], or raises: the
    [KeyError] of a document without a name, the error of the model call,
    or the validation error of an element out of range. The length of the
    sequence is not compared with the number of documents. *)
Theorem score_with_llm_range_only
    (llm_scores : string → list Document → result (list Z))
    (query : string) (docs : list Document) :
  match score_with_llm llm_scores query docs with
  | Ok scores =>
      llm_scores query docs = Ok scores ∧ Forall in_range scores
  | Raise e =>
      (e = KeyError "assessment_name"
       ∧ Exists (λ d, assessment_name (metadata d) = None) docs)
      ∨ llm_scores query docs = Raise e
      ∨ (e = ValidationError
         ∧ ∃ raw, llm_scores query docs = Ok raw
                  ∧ Exists (λ s, ¬ in_range s) raw)
  end.
Proof.
  unfold score_with_llm.
  destruct (forallb _ docs) eqn:Hnames.
  - destruct (llm_scores query docs) as [raw|e] eqn:Hreply.
    + rewrite bind_Ok.
      destruct (ScoreList_validate raw) as [scores|e] eqn:Hval.
      * apply ScoreList_validate_Ok in Hval as [-> Hrange]. done.
      * apply ScoreList_validate_Raise in Hval as [-> Hout]. eauto 6.
    + rewrite bind_Raise. eauto.
  - left. split; [done|]. apply Exists_exists.
    induction docs as [|d docs IH]; simpl in *; [done|].
    apply andb_false_iff in Hnames as [Hd|Hdocs].
    + exists d. split; [by left|]. case_bool_decide as Hs; [done|].
      destruct (assessment_name (metadata d)); [|done].
      exfalso. apply Hs. eauto.
    + destruct (IH Hdocs) as (d' & Hin & Hnone).
      exists d'. split; [by right|done].
Qed.

(** C2, as stated, fails: for two documents and a reply of one score the
    scorer returns the one score, without an error. *)
Lemma score_with_llm_short_reply :
  score_with_llm (λ _ _, Ok [3]) "java developer" [doc_a; doc_b] = Ok [3]
  ∧ length [3] ≠ length [doc_a; doc_b].
Proof. split; [reflexivity | discriminate]. Qed.

(** ** Emission *)

Lemma emit_elem (k : Z) (ranked : list (Document * Z))
    (recommended : list Recommendation.t) (seen : gset string)
    (r : Recommendation.t) :
  r ∈ emit k ranked recommended seen →
  r ∈ recommended
  ∨ ∃ doc url, doc ∈ ranked.*1 ∧ assessment_url (metadata doc) = Some url
               ∧ nonempty url = true ∧ r = to_recommendation url doc.
Proof.
  revert recommended seen.
  induction ranked as [|[doc sc] ranked IH]; intros recommended seen; simpl.
  { by left. }
  assert (∀ rec' seen',
    r ∈ emit k ranked rec' seen' →
    (r ∈ rec' → r ∈ recommended
       ∨ ∃ doc0 url, doc0 ∈ doc :: ranked.*1
                     ∧ assessment_url (metadata doc0) = Some url
                     ∧ nonempty url = true ∧ r = to_recommendation url doc0) →
    r ∈ recommended
    ∨ ∃ doc0 url, doc0 ∈ doc :: ranked.*1
                  ∧ assessment_url (metadata doc0) = Some url
                  ∧ nonempty url = true ∧ r = to_recommendation url doc0)
    as Hrest.
  { intros rec' seen' Hin Hrec'.
    destruct (IH _ _ Hin) as [Hr|(doc0 & url & Hd & Hu & Hne & ->)];
      [by apply Hrec'|].
    right. exists doc0, url. split_and!; [by right|done..]. }
  destruct (assessment_url (metadata doc)) as [url|] eqn:Hurl;
    [|intros Hin; apply (Hrest _ _ Hin); by left].
  destruct (nonempty url) eqn:Hne; simpl;
    [|intros Hin; apply (Hrest _ _ Hin); by left].
  case_bool_decide as Hseen; simpl;
    [intros Hin; apply (Hrest _ _ Hin); by left|].
  assert (r ∈ recommended ++ [to_recommendation url doc] →
          r ∈ recommended
          ∨ ∃ doc0 url0, doc0 ∈ doc :: ranked.*1
                        ∧ assessment_url (metadata doc0) = Some url0
                        ∧ nonempty url0 = true
                        ∧ r = to_recommendation url0 doc0) as Happ.
  { intros Hin. apply elem_of_app in Hin as [Hin|Hin]; [by left|].
    apply list_elem_of_singleton in Hin as ->.
    right. exists doc, url. split_and!; [by left|done..]. }
  case_bool_decide; [done|].
  intros Hin. by apply (Hrest _ _ Hin).
Qed.





(** ** Ranking *)

Section sorting.
Context {A : Type} (key : A → Z).

Let ascending : relation A := λ x y, key x ≤ key y.

Lemma insert_by_HdRel (a x : A) (l : list A) :
  ascending a x → HdRel ascending a l →
  HdRel ascending a (insert_by key x l).
Proof.
  intros Hax Hal. destruct l as [|y l]; simpl; [by constructor|].
  case_bool_decide; constructor; [done|]. by inv Hal.
Qed.

Lemma insert_by_Sorted (x : A) (l : list A) :
  Sorted ascending l → Sorted ascending (insert_by key x l).
Proof.
  induction 1 as [|y l Hl IH Hhd]; simpl.
  - by repeat constructor.
  - case_bool_decide as Hxy.
    + constructor; [by constructor|by constructor].
    + constructor; [done|]. apply insert_by_HdRel; [|done].
      unfold ascending. lia.
Qed.

Lemma sort_by_Sorted (l : list A) : Sorted ascending (sort_by key l).
Proof.
  induction l as [|x l IH]; simpl; [constructor|].
  by apply insert_by_Sorted.
Qed.

Lemma insert_by_Permutation (x : A) (l : list A) :
  insert_by key x l ≡ₚ x :: l.
Proof.
  induction l as [|y l IH]; simpl; [done|].
  case_bool_decide; [done|]. rewrite IH. apply Permutation_swap.
Qed.

Lemma sort_by_Permutation (l : list A) : sort_by key l ≡ₚ l.
Proof.
  induction l as [|x l IH]; simpl; [done|].
  by rewrite insert_by_Permutation, IH.
Qed.

(** An element is inserted before the elements of its own key. *)
Lemma insert_by_filter (s : Z) (x : A) (l : list A) :
  filter (λ y, key y = s) (insert_by key x l)
  = filter (λ y, key y = s) (x :: l).
Proof.
  induction l as [|y l IH]; simpl; [done|].
  case_bool_decide as Hxy; [done|].
  rewrite (filter_cons _ y), IH, !filter_cons.
  repeat case_decide; try done. lia.
Qed.

Lemma sort_by_filter (s : Z) (l : list A) :
  filter (λ y, key y = s) (sort_by key l) = filter (λ y, key y = s) l.
Proof.
  induction l as [|x l IH]; simpl; [done|].
  by rewrite insert_by_filter, !filter_cons, IH.
Qed.

Lemma sorted_reverse_filter (s : Z) (l : list A) :
  filter (λ y, key y = s) (sorted_reverse key l)
  = filter (λ y, key y = s) l.
Proof.
  unfold sorted_reverse.
  by rewrite filter_reverse, sort_by_filter, filter_reverse,
    reverse_involutive.
Qed.

Lemma sorted_reverse_descending (l : list A) :
  Sorted (λ x y, key y ≤ key x) (sorted_reverse key l).
Proof. apply (Sorted_reverse ascending), sort_by_Sorted. Qed.

Lemma sorted_reverse_Permutation (l : list A) : sorted_reverse key l ≡ₚ l.
Proof.
  unfold sorted_reverse.
  by rewrite reverse_Permutation, sort_by_Permutation, reverse_Permutation.
Qed.
End sorting.

(** The emission loop keeps a subsequence of the ranked documents. *)
Lemma emit_sublist (k : Z) (ranked : list (Document * Z))
    (recommended : list Recommendation.t) (seen : gset string) :
  ∃ kept, kept `sublist_of` ranked.*1
          ∧ emit k ranked recommended seen
            = recommended ++ (recommendation_of <$> kept).
Proof.
  revert recommended seen.
  induction ranked as [|[doc sc] ranked IH]; intros recommended seen; simpl.
  { exists []. split; [constructor|]. by rewrite app_nil_r. }
  assert (∃ kept, kept `sublist_of` doc :: ranked.*1
                  ∧ emit k ranked recommended seen
                    = recommended ++ (recommendation_of <$> kept)) as Hskip.
  { destruct (IH recommended seen) as (kept & Hsub & ->).
    exists kept. split; [by constructor|done]. }
  destruct (assessment_url (metadata doc)) as [url|] eqn:Hurl; [|done].
  destruct (nonempty url && negb (bool_decide (url ∈ seen))); [|done].
  assert (to_recommendation url doc = recommendation_of doc) as Hrec.
  { unfold recommendation_of, url_of. by rewrite Hurl. }
  case_bool_decide.
  - exists [doc]. split.
    + apply sublist_skip, sublist_nil_l.
    + by rewrite Hrec.
  - destruct (IH (recommended ++ [to_recommendation url doc])
                ({[url]} ∪ seen)) as (kept & Hsub & ->).
    exists (doc :: kept). split; [by constructor|].
    by rewrite Hrec, <- app_assoc.
Qed.

(** C5. The ranking is sorted by score, highest first, and stable: for
    every score [s], the candidates of score [s] come in the ranking in the
    order they have in the balanced selection (paired with the scores); the
    ranking is a rearrangement of these pairs, and the recommendations are
    emitted in the ranking's order. *)
Theorem final_ranking_stable (balanced : list Document) (scores : list Z)
    (s k : Z) :
  filter (λ p, p.2 = s) (rank balanced scores)
    = filter (λ p, p.2 = s) (zip balanced scores)
  ∧ Sorted (λ p q, q.2 ≤ p.2) (rank balanced scores)
  ∧ rank balanced scores ≡ₚ zip balanced scores
  ∧ ∃ kept, kept `sublist_of` (rank balanced scores).*1
            ∧ emit k (rank balanced scores) [] ∅ = recommendation_of <$> kept.
Proof.
  unfold rank. split_and!.
  - apply (sorted_reverse_filter snd).
  - apply (sorted_reverse_descending snd).
  - apply sorted_reverse_Permutation.
  - apply emit_sublist.
Qed.

(** ** Balanced selection: documents without a url *)

Lemma has_url_nonempty (doc : Document) : has_url doc = nonempty (url_of doc).
Proof.
  unfold has_url, url_of, truthy, nonempty.
  by destruct (assessment_url (metadata doc)).
Qed.

Lemma first_pass_body_nourl (required : list string) (target : Z)
    (doc : Document) (st : sel_state) :
  has_url doc = false → first_pass_body required target doc st = st.
Proof.
  rewrite has_url_nonempty. unfold first_pass_body. by intros ->.
Qed.

Lemma second_pass_body_nourl (doc : Document) (st : sel_state) :
  has_url doc = false → second_pass_body doc st = st.
Proof.
  rewrite has_url_nonempty. unfold second_pass_body. by intros ->.
Qed.

Lemma loop_until_full_skip (k : Z) (body : Document → sel_state → sel_state)
    (docs : list Document) (st : sel_state) :
  (∀ doc st', has_url doc = false → body doc st' = st') →
  loop_until_full k body (List.filter has_url docs) st
  = loop_until_full k body docs st.
Proof.
  intros Hskip. revert st.
  induction docs as [|doc docs IH]; intros st; simpl; [done|].
  destruct (has_url doc) eqn:Hurl; simpl.
  - case_bool_decide; [done|]. apply IH.
  - rewrite (Hskip doc st Hurl), IH.
    case_bool_decide as Hfull; [|done].
    destruct docs; simpl; [done|]. by rewrite bool_decide_eq_true_2.
Qed.

Lemma merge_skip (docs : list Document) (st : list Document * gset string) :
  merge (List.filter has_url docs) st = merge docs st.
Proof.
  unfold merge. revert st.
  induction docs as [|doc docs IH]; intros st; simpl; [done|].
  destruct (has_url doc) eqn:Hurl; simpl; [done|].
  rewrite IH. f_equal. unfold merge_step.
  unfold has_url, truthy in Hurl.
  destruct (assessment_url (metadata doc)) as [u|]; [|done].
  fold (nonempty u) in Hurl. by rewrite Hurl.
Qed.

Lemma emit_skip (k : Z) (ranked : list (Document * Z))
    (recommended : list Recommendation.t) (seen : gset string) :
  emit k (List.filter (λ p, has_url p.1) ranked) recommended seen
  = emit k ranked recommended seen.
Proof.
  revert recommended seen.
  induction ranked as [|[doc sc] ranked IH]; intros recommended seen;
    simpl; [done|].
  unfold has_url, truthy.
  destruct (assessment_url (metadata doc)) as [u|] eqn:Hu; simpl; [|done].
  fold (nonempty u). destruct (nonempty u) eqn:Hne; simpl; [|done].
  rewrite Hu, Hne. simpl.
  case_bool_decide; simpl; [done|]. case_bool_decide; [done|]. apply IH.
Qed.

Lemma balanced_selection_skip (docs : list Document) (required : list string)
    (k : Z) :
  balanced_selection (List.filter has_url docs) required k
  = balanced_selection docs required k.
Proof.
  unfold balanced_selection, first_pass_result, first_pass, second_pass.
  rewrite !loop_until_full_skip;
    eauto using first_pass_body_nourl, second_pass_body_nourl.
Qed.

(** C10. Documents whose [assessment_url] is missing or empty are ignored
    by the retrieval merge, by both passes of the balanced selection and by
    the emission loop: each gives the same result with these documents
    removed from its input; and every recommendation that [recommend]
    returns has a non-empty url. *)
Theorem missing_url_skipped
    (llm_intent : string → result (list string))
    (llm_scores : string → list Document → result (list Z))
    (similarity_search : string → Z → option string → result (list Document))
    (query : string) (k : Z) :
  (∀ docs st, merge (List.filter has_url docs) st = merge docs st)
  ∧ (∀ docs required target st,
       first_pass required k target (List.filter has_url docs) st
       = first_pass required k target docs st)
  ∧ (∀ docs st,
       second_pass k (List.filter has_url docs) st = second_pass k docs st)
  ∧ (∀ docs required,
       balanced_selection (List.filter has_url docs) required k
       = balanced_selection docs required k)
  ∧ (∀ ranked recommended seen,
       emit k (List.filter (λ p, has_url p.1) ranked) recommended seen
       = emit k ranked recommended seen)
  ∧ match recommend llm_intent llm_scores similarity_search query k with
    | Ok recommended =>
        Forall (λ r, Recommendation.url r ≠ "") recommended
    | Raise _ => True
    end.
Proof.
  split_and!.
  - apply merge_skip.
  - intros. apply loop_until_full_skip, first_pass_body_nourl.
  - intros. apply loop_until_full_skip, second_pass_body_nourl.
  - intros. apply balanced_selection_skip.
  - apply emit_skip.
  - destruct (recommend _ _ _ _ _) as [recommended|e] eqn:Hrec; [|done].
    unfold recommend in Hrec.
    destruct (detect_query_intent _ _) as [domains|]; [|done].
    rewrite bind_Ok in Hrec. unfold recommend_for_types in Hrec.
    destruct (retrieve _ _ _) as [retrieved|]; [|done].
    rewrite bind_Ok in Hrec.
    destruct (score_with_llm _ _ _) as [scores|]; [|done].
    rewrite bind_Ok in Hrec. injection Hrec as <-.
    apply Forall_forall. intros r Hr.
    apply emit_elem in Hr as [Hr|(doc & url & _ & _ & Hne & ->)].
    + by apply elem_of_nil in Hr.
    + simpl. intros ->. done.
Qed.

(** ** Balanced selection: bound, distinct urls, subset *)

Lemma first_pass_body_appended (required : list string) (target : Z)
    (doc : Document) (st : sel_state) :
  appended doc st (first_pass_body required target doc st).
Proof.
  unfold first_pass_body, appended.
  destruct (nonempty (url_of doc)) eqn:Hne; simpl; [|by left].
  case_bool_decide as Hseen; [by left|].
  destruct (matching_types _ _) as [|t ts]; [by left|].
  destruct (existsb _ _); [|by left].
  right. done.
Qed.

Lemma second_pass_body_appended (doc : Document) (st : sel_state) :
  appended doc st (second_pass_body doc st).
Proof.
  unfold second_pass_body, appended.
  destruct (nonempty (url_of doc)) eqn:Hne; simpl; [|by left].
  case_bool_decide as Hseen; simpl; [by left|].
  right. done.
Qed.

Lemma appended_inv (k : Z) (docs0 : list Document) (doc : Document)
    (st st' : sel_state) :
  appended doc st st' → doc ∈ docs0 → len (selected st) < k →
  sel_inv k docs0 st → sel_inv k docs0 st'.
Proof.
  intros [->|(Hsel & Hseen & Hne & Hnew)] Hdoc Hlen [Hs Hn Hsub Hl]; [done|].
  split; rewrite Hsel.
  - intros u. rewrite Hseen. unfold urls. rewrite fmap_app. simpl.
    rewrite elem_of_union, elem_of_singleton, elem_of_app,
      list_elem_of_singleton, Hs. unfold urls. tauto.
  - unfold urls. rewrite fmap_app. simpl. apply NoDup_app. split_and!.
    + done.
    + intros u Hu ->%list_elem_of_singleton. apply Hnew. by apply Hs.
    + apply NoDup_singleton.
  - intros d [Hd| ->%list_elem_of_singleton]%elem_of_app; [by apply Hsub|done].
  - unfold len in *. rewrite length_app. simpl. lia.
Qed.

Lemma loop_until_full_inv (k : Z) (body : Document → sel_state → sel_state)
    (docs0 docs : list Document) (st : sel_state) :
  (∀ doc st', appended doc st' (body doc st')) →
  (∀ d, d ∈ docs → d ∈ docs0) →
  sel_inv k docs0 st → sel_inv k docs0 (loop_until_full k body docs st).
Proof.
  intros Hbody. revert st.
  induction docs as [|doc docs IH]; intros st Hsub Hinv; simpl; [done|].
  case_bool_decide as Hfull; [done|].
  apply IH.
  - intros d Hd. apply Hsub. by right.
  - eapply appended_inv; [apply Hbody| |lia|done]. apply Hsub. by left.
Qed.

Lemma initial_state_inv (k : Z) (docs0 : list Document)
    (required : list string) :
  sel_inv k docs0 (initial_state required).
Proof.
  split; simpl.
  - intros u. split; [set_solver|]. by intros ?%elem_of_nil.
  - constructor.
  - by intros d ?%elem_of_nil.
  - unfold len. simpl. lia.
Qed.

Lemma second_pass_result_inv (docs : list Document) (required : list string)
    (k : Z) :
  sel_inv k docs (second_pass k docs (first_pass_result docs required k)).
Proof.
  unfold second_pass, first_pass_result, first_pass.
  apply loop_until_full_inv;
    [apply second_pass_body_appended|done|].
  apply loop_until_full_inv;
    [apply first_pass_body_appended|done|].
  apply initial_state_inv.
Qed.

Lemma slice_to_take {A : Type} (k : Z) (l : list A) :
  ∃ n, slice_to k l = take n l.
Proof. unfold slice_to. case_bool_decide; eauto. Qed.

(** C3, as stated, fails for a negative [k]: the output is empty, and its
    length, zero, is above [k]. *)
Lemma balanced_selection_negative_k :
  balanced_selection [doc_a] ["K"] (-1) = []
  ∧ ¬ len (balanced_selection [doc_a] ["K"] (-1)) ≤ -1.
Proof. split; [reflexivity|]. vm_compute. by intros H; apply H. Qed.

(** C3, as the code has it. The output of [balanced_selection] has at most
    [max(0, k)] documents (so at most [k] for [k] from zero on), no two
    of the same url, all taken from the candidate list. *)
Theorem balanced_selection_bounded_distinct (docs : list Document)
    (required : list string) (k : Z) :
  len (balanced_selection docs required k) ≤ Z.max 0 k
  ∧ NoDup (urls (balanced_selection docs required k))
  ∧ (∀ d, d ∈ balanced_selection docs required k → d ∈ docs).
Proof.
  unfold balanced_selection.
  destruct (second_pass_result_inv docs required k) as [_ Hn Hsub Hl].
  destruct (slice_to_take k
              (selected (second_pass k docs
                           (first_pass_result docs required k))))
    as [n ->].
  split_and!.
  - unfold len in *. rewrite length_take. lia.
  - unfold urls in *. rewrite fmap_take.
    eapply sublist_NoDup; [done|apply sublist_take].
  - intros d Hd. apply Hsub. eapply elem_of_sublist; [done|apply sublist_take].
Qed.

(** ** Balanced selection without required codes *)

Lemma loop_until_full_id (k : Z) (body : Document → sel_state → sel_state)
    (docs : list Document) (st : sel_state) :
  (∀ doc st', body doc st' = st') → loop_until_full k body docs st = st.
Proof.
  intros Hid. induction docs as [|doc docs IH]; simpl; [done|].
  case_bool_decide; [done|]. by rewrite Hid.
Qed.

Lemma first_pass_no_required (docs : list Document) (k : Z) :
  first_pass_result docs [] k = initial_state [].
Proof.
  unfold first_pass_result, first_pass. apply loop_until_full_id.
  intros doc st. unfold first_pass_body. simpl. by destruct (_ || _).
Qed.

Lemma second_pass_dedup (k : Z) (docs : list Document) (st : sel_state)
    (seen : list string) :
  (∀ u, u ∈ seen ↔ u ∈ seen_urls st) →
  selected (second_pass k docs st)
  = selected st
    ++ take (Z.to_nat k - length (selected st))%nat
         (dedup_from seen (List.filter has_url docs)).
Proof.
  unfold second_pass. revert st seen.
  induction docs as [|doc docs IH]; intros st seen Hseen; simpl.
  { by rewrite take_nil, app_nil_r. }
  case_bool_decide as Hfull.
  { replace (Z.to_nat k - length (selected st))%nat with 0%nat
      by (unfold len in Hfull; lia).
    by rewrite take_0, app_nil_r. }
  rewrite has_url_nonempty. unfold second_pass_body.
  destruct (nonempty (url_of doc)) eqn:Hne; simpl; [|by apply IH].
  case_bool_decide as Hin; simpl.
  - rewrite bool_decide_eq_true_2 by (by apply Hseen). by apply IH.
  - rewrite bool_decide_eq_false_2 by (by rewrite Hseen).
    rewrite (IH _ (url_of doc :: seen)); simpl.
    + rewrite length_app. simpl. unfold len in Hfull.
      replace (Z.to_nat k - length (selected st))%nat
        with (S (Z.to_nat k - (length (selected st) + 1)))%nat by lia.
      simpl. by rewrite <- app_assoc.
    + intros u. rewrite elem_of_cons, elem_of_union, elem_of_singleton, Hseen.
      tauto.
Qed.

(** C4, as stated, fails: a candidate without a url is not in the output,
    though it is the first candidate after de-duplication by url. *)
Lemma balanced_selection_drops_missing_url :
  balanced_selection [doc_nourl; doc_a] [] 1 = [doc_a]
  ∧ take (Z.to_nat 1) (dedup_by_url [doc_nourl; doc_a]) = [doc_nourl].
Proof. split; reflexivity. Qed.

(** C4, as the code has it. With no required code the first pass accepts
    nothing, and the output is the first [k] candidates, in input order,
    of those that have a url, de-duplicated by url. *)
Theorem balanced_selection_no_required (docs : list Document) (k : Z) :
  selected (first_pass_result docs [] k) = []
  ∧ balanced_selection docs [] k
    = take (Z.to_nat k) (dedup_by_url (List.filter has_url docs)).
Proof.
  split; [by rewrite first_pass_no_required|].
  unfold balanced_selection. rewrite first_pass_no_required.
  rewrite (second_pass_dedup k docs (initial_state []) []); simpl.
  - rewrite Nat.sub_0_r. unfold slice_to, dedup_by_url.
    case_bool_decide as Hk.
    + by rewrite take_take, Nat.min_id.
    + replace (Z.to_nat k) with 0%nat by lia. by rewrite !take_0, take_nil.
  - intros u. split; [by intros ?%elem_of_nil|set_solver].
Qed.

(** ** The first pass of the balanced selection *)

Lemma existsb_filter {A : Type} (f g : A → bool) (l : list A) :
  existsb f (List.filter g l) = existsb (λ x, g x && f x) l.
Proof.
  induction l as [|x l IH]; simpl; [done|].
  destruct (g x); simpl; by rewrite IH.
Qed.

Lemma existsb_ext_in {A : Type} (f g : A → bool) (l : list A) :
  (∀ x, x ∈ l → f x = g x) → existsb f l = existsb g l.
Proof.
  induction l as [|x l IH]; intros Hfg; simpl; [done|].
  rewrite Hfg by (by left). rewrite IH; [done|].
  intros y Hy. apply Hfg. by right.
Qed.

Lemma elem_of_matching_types (required doc_types : list string) (t : string) :
  t ∈ matching_types required doc_types ↔ t ∈ required ∧ t ∈ doc_types.
Proof.
  unfold matching_types. rewrite !list_elem_of_In, filter_In.
  rewrite bool_decide_eq_true, list_elem_of_In. done.
Qed.

Lemma NoDup_matching_types (required doc_types : list string) :
  NoDup required → NoDup (matching_types required doc_types).
Proof.
  intros Hnd. eapply sublist_NoDup; [done|]. unfold matching_types.
  clear Hnd. induction required as [|t required IH]; simpl; [constructor|].
  destruct (bool_decide _); by constructor.
Qed.

Lemma init_counts_lookup (required : list string) (t : string) :
  t ∈ required → init_counts required !! t = Some 0.
Proof.
  unfold init_counts. intros Ht.
  assert (t ∈ required ∨ (∅ : gmap string Z) !! t = Some 0) as H by by left.
  clear Ht. revert H. generalize (∅ : gmap string Z).
  induction required as [|x required IH]; intros m [Ht|Hm]; simpl.
  - by apply elem_of_nil in Ht.
  - done.
  - apply IH. destruct (decide (x = t)) as [->|Hne].
    + right. apply lookup_insert_eq.
    + left. by apply elem_of_cons in Ht as [->|Ht].
  - apply IH. right. destruct (decide (x = t)) as [->|Hne].
    + apply lookup_insert_eq.
    + by rewrite lookup_insert_ne.
Qed.

Lemma bump_lookup (counts : gmap string Z) (matching : list string)
    (t : string) :
  NoDup matching →
  bump counts matching !! t
  = if bool_decide (t ∈ matching) then Some (count_of counts t + 1)
    else counts !! t.
Proof.
  unfold bump. intros Hnd. revert counts.
  induction Hnd as [|x matching Hx Hnd IH]; intros counts; simpl; [done|].
  rewrite IH. destruct (decide (x = t)) as [->|Hne].
  - rewrite bool_decide_eq_false_2 by done.
    rewrite bool_decide_eq_true_2 by (by left). apply lookup_insert_eq.
  - unfold count_of. rewrite lookup_insert_ne by done.
    case_bool_decide as Ht.
    + rewrite bool_decide_eq_true_2 by (by right). done.
    + rewrite bool_decide_eq_false_2; [done|].
      intros [->|Ht']%elem_of_cons; done.
Qed.

Lemma accept_count_snoc (t : string) (accepted : list Document)
    (doc : Document) :
  accept_count t (accepted ++ [doc])
  = accept_count t accepted
    + if bool_decide (t ∈ extract_test_types doc) then 1 else 0.
Proof.
  unfold accept_count, len. rewrite List.filter_app, length_app. simpl.
  case_bool_decide; simpl; lia.
Qed.

Lemma first_pass_body_accepts (required : list string) (target : Z)
    (doc : Document) (st : sel_state) :
  tracks required st →
  first_pass_body required target doc st
  = if nonempty (url_of doc) && spec_accepts required target (selected st) doc
    then {| selected := selected st ++ [doc];
            seen_urls := {[url_of doc]} ∪ seen_urls st;
            type_counts :=
              bump (type_counts st)
                (matching_types required (extract_test_types doc)) |}
    else st.
Proof.
  intros [Hseen Hcounts]. unfold first_pass_body, spec_accepts.
  destruct (nonempty (url_of doc)); simpl; [|done].
  case_bool_decide as Hin.
  { rewrite bool_decide_eq_false_2; [done|]. intros Hn. by apply Hn, Hseen. }
  rewrite bool_decide_eq_true_2 by (by rewrite <- Hseen). simpl.
  assert (existsb (λ t, bool_decide (count_of (type_counts st) t < target))
            (matching_types required (extract_test_types doc))
          = existsb (λ t, bool_decide (t ∈ extract_test_types doc)
                          && bool_decide (accept_count t (selected st) < target))
              required) as Hex.
  { unfold matching_types. rewrite existsb_filter.
    apply existsb_ext_in. intros t Ht. unfold count_of.
    by rewrite (Hcounts t Ht). }
  rewrite <- Hex.
  by destruct (matching_types required (extract_test_types doc)).
Qed.

Lemma first_pass_body_tracks (required : list string) (target : Z)
    (doc : Document) (st : sel_state) :
  NoDup required → tracks required st →
  tracks required (first_pass_body required target doc st).
Proof.
  intros Hnd Htr. rewrite (first_pass_body_accepts _ _ _ _ Htr).
  destruct (_ && _); [|done]. destruct Htr as [Hseen Hcounts].
  split; simpl.
  - intros u. unfold urls. rewrite fmap_app. simpl.
    rewrite elem_of_union, elem_of_singleton, elem_of_app,
      list_elem_of_singleton, Hseen. unfold urls. tauto.
  - intros t Ht. rewrite bump_lookup
      by (by apply NoDup_matching_types).
    rewrite accept_count_snoc. unfold count_of. rewrite (Hcounts t Ht). simpl.
    case_bool_decide as Hm.
    + apply elem_of_matching_types in Hm as [_ Hm].
      by rewrite bool_decide_eq_true_2.
    + rewrite bool_decide_eq_false_2; [f_equal; lia|].
      intros Hd. apply Hm. by apply elem_of_matching_types.
Qed.

Lemma capped_step_full (required : list string) (k target : Z)
    (docs accepted : list Document) :
  k ≤ len accepted →
  foldl (capped_step required k target) accepted docs = accepted.
Proof.
  intros Hfull. induction docs as [|doc docs IH]; simpl; [done|].
  unfold capped_step at 2, capped_accepts.
  by rewrite bool_decide_eq_false_2 by lia.
Qed.

Lemma first_pass_refines (required : list string) (k target : Z)
    (docs : list Document) (st : sel_state) :
  NoDup required → tracks required st →
  selected (first_pass required k target docs st)
  = foldl (capped_step required k target) (selected st) docs
  ∧ tracks required (first_pass required k target docs st).
Proof.
  intros Hnd. unfold first_pass. revert st.
  induction docs as [|doc docs IH]; intros st Htr; simpl; [done|].
  case_bool_decide as Hfull.
  { split; [|done].
    unfold capped_step at 2, capped_accepts.
    rewrite bool_decide_eq_false_2 by lia. simpl.
    by rewrite capped_step_full. }
  destruct (IH (first_pass_body required target doc st)) as [-> Htr'].
  { by apply first_pass_body_tracks. }
  split; [|done]. f_equal.
  rewrite (first_pass_body_accepts _ _ _ _ Htr).
  unfold capped_step, capped_accepts.
  rewrite bool_decide_eq_true_2 by lia. simpl.
  by destruct (_ && _).
Qed.

Lemma initial_state_tracks (required : list string) :
  tracks required (initial_state required).
Proof.
  split; simpl.
  - intros u. split; [set_solver|]. by intros ?%elem_of_nil.
  - intros t Ht. by apply init_counts_lookup.
Qed.

(** C1, as stated, fails. With two required codes and [k = 1] the target
    is 1 for each code and the specified pass accepts both documents,
    while the code stops at one; and a matching document without a url is
    accepted by the specified pass and skipped by the code. *)
Lemma first_pass_stops_at_k :
  selected (first_pass_result [doc_a; doc_b] ["K"; "P"] 1) = [doc_a]
  ∧ spec_first_pass ["K"; "P"] 1 [doc_a; doc_b] = [doc_a; doc_b]
  ∧ selected (first_pass_result [doc_nourl] ["K"] 7) = []
  ∧ spec_first_pass ["K"] 7 [doc_nourl] = [doc_nourl].
Proof. split_and!; reflexivity. Qed.

(** C1, as the code has it. For a set of required codes, the first pass
    uses the target [max(1, k // max(1, |required|))] and scans the
    candidates in input order; it accepts a candidate exactly when fewer
    than [k] are accepted so far, its url is non-empty and new, and some
    required code of the candidate has its accept-count below the target;
    the counter of every required code is the number of accepted
    candidates carrying that code. *)
Theorem first_pass_is_capped_spec (docs : list Document)
    (required : list string) (k : Z) :
  NoDup required →
  per_type_target required k = Z.max 1 (k / Z.max 1 (len required))
  ∧ selected (first_pass_result docs required k)
    = capped_first_pass required k docs
  ∧ (∀ t, t ∈ required →
       type_counts (first_pass_result docs required k) !! t
       = Some (accept_count t (selected (first_pass_result docs required k)))).
Proof.
  intros Hnd. split; [done|].
  destruct (first_pass_refines required k (per_type_target required k) docs
              (initial_state required) Hnd (initial_state_tracks required))
    as [Hsel [_ Hcounts]].
  split; [exact Hsel|exact Hcounts].
Qed.

Lemma first_pass_is_capped_spec_witness :
  selected (first_pass_result [doc_a; doc_b] ["K"; "P"] 1)
  = capped_first_pass ["K"; "P"] 1 [doc_a; doc_b].
Proof.
  refine (proj1 (proj2 (first_pass_is_capped_spec [doc_a; doc_b]
                          ["K"; "P"] 1 _))).
  apply (bool_decide_unpack _). vm_compute. exact I.
Defined.

(** *** When the cap of [k] is never reached

    With at least as many places as required codes, the quotas add up to
    at most [k]: the test of [len(selected) >= k] then never refuses a
    candidate that the quota test accepts, and on candidates that all have
    a url the first pass is the specified one, as it is worded. *)

Lemma filled_bound (required : list string) (target : Z)
    (accepted : list Document) :
  filled required target accepted ≤ len required * target.
Proof.
  unfold filled, len. induction required as [|t required IH]; simpl; lia.
Qed.

Lemma filled_nonneg (required : list string) (target : Z)
    (accepted : list Document) :
  0 ≤ target → 0 ≤ filled required target accepted.
Proof.
  intros Ht. unfold filled.
  induction required as [|t required IH]; simpl; [done|].
  unfold accept_count at 1, len. lia.
Qed.

Lemma filled_room (required : list string) (target : Z)
    (accepted : list Document) (t : string) :
  t ∈ required → accept_count t accepted < target →
  filled required target accepted < len required * target.
Proof.
  intros Ht Hroom. induction required as [|x required IH].
  { by apply elem_of_nil in Ht. }
  pose proof (filled_bound required target accepted) as Hb.
  unfold filled, len in *. simpl.
  apply elem_of_cons in Ht as [->|Ht]; [lia|].
  specialize (IH Ht). lia.
Qed.

Lemma filled_mono (required : list string) (target : Z)
    (accepted : list Document) (doc : Document) :
  filled required target accepted ≤ filled required target (accepted ++ [doc]).
Proof.
  unfold filled. induction required as [|x required IH]; simpl; [done|].
  rewrite accept_count_snoc. case_bool_decide; lia.
Qed.

Lemma filled_accept (required : list string) (target : Z)
    (accepted : list Document) (doc : Document) (t : string) :
  t ∈ required → t ∈ extract_test_types doc →
  accept_count t accepted < target →
  filled required target accepted + 1
  ≤ filled required target (accepted ++ [doc]).
Proof.
  intros Ht Hdoc Hroom. induction required as [|x required IH].
  { by apply elem_of_nil in Ht. }
  pose proof (filled_mono required target accepted doc) as Hm.
  unfold filled in *. simpl. rewrite accept_count_snoc.
  apply elem_of_cons in Ht as [<-|Ht].
  - rewrite bool_decide_eq_true_2 by done. lia.
  - specialize (IH Ht). case_bool_decide; lia.
Qed.

Lemma spec_accepts_room (required : list string) (target : Z)
    (accepted : list Document) (doc : Document) :
  spec_accepts required target accepted doc = true →
  ∃ t, t ∈ required ∧ t ∈ extract_test_types doc
       ∧ accept_count t accepted < target.
Proof.
  unfold spec_accepts. intros [_ Hex]%andb_true_iff.
  apply existsb_exists in Hex as (t & Ht & Hc).
  apply andb_true_iff in Hc as [Hd Hc].
  apply bool_decide_eq_true in Hd, Hc. apply list_elem_of_In in Ht. eauto.
Qed.

Lemma target_fits (required : list string) (k : Z) :
  len required ≤ k → len required * per_type_target required k ≤ k.
Proof.
  unfold per_type_target, len. intros Hk.
  destruct required as [|t required]; simpl length in *; [lia|].
  set (n := Z.of_nat (S (length required))) in *.
  assert (0 < n) by lia.
  replace (Z.max 1 n) with n by lia.
  pose proof (Z.mul_div_le k n ltac:(lia)).
  assert (1 ≤ k / n) by (apply Z.div_le_lower_bound; lia).
  lia.
Qed.

Lemma capped_is_spec_with_room (required : list string) (k target : Z)
    (docs accepted : list Document) :
  len required * target ≤ k →
  len accepted ≤ filled required target accepted →
  Forall (λ d, has_url d = true) docs →
  foldl (capped_step required k target) accepted docs
  = foldl (spec_step required target) accepted docs.
Proof.
  intros Hfit. revert accepted.
  induction docs as [|doc docs IH]; intros accepted Hinv Hurls; simpl; [done|].
  inv Hurls as [|? ? Hurl Hurls'].
  rewrite has_url_nonempty in Hurl.
  assert (capped_step required k target accepted doc
          = spec_step required target accepted doc) as ->.
  { unfold capped_step, spec_step, capped_accepts. rewrite Hurl.
    destruct (spec_accepts required target accepted doc) eqn:Hacc;
      [|by rewrite andb_false_r].
    apply spec_accepts_room in Hacc as (t & Ht & _ & Hroom).
    pose proof (filled_room _ _ _ _ Ht Hroom).
    by rewrite bool_decide_eq_true_2 by lia. }
  apply IH; [|done].
  unfold spec_step.
  destruct (spec_accepts required target accepted doc) eqn:Hacc; [|done].
  apply spec_accepts_room in Hacc as (t & Ht & Hd & Hroom).
  pose proof (filled_accept _ _ _ doc _ Ht Hd Hroom).
  unfold len in *. rewrite length_app. simpl. lia.
Qed.

(** X9. With at least as many places as required codes, and candidates
    that all have a url, the first pass of the code is the pass of the
    specification as it is worded: the test on [k] never refuses a
    candidate that the quota test accepts. *)
Lemma first_pass_is_spec_with_room (docs : list Document)
    (required : list string) (k : Z) :
  NoDup required → len required ≤ k →
  Forall (λ d, has_url d = true) docs →
  selected (first_pass_result docs required k) = spec_first_pass required k docs.
Proof.
  intros Hnd Hk Hurls. unfold first_pass_result.
  destruct (first_pass_refines required k (per_type_target required k) docs
              (initial_state required) Hnd (initial_state_tracks required))
    as [-> _].
  change (selected (initial_state required)) with (@nil Document).
  unfold spec_first_pass.
  apply capped_is_spec_with_room; [by apply target_fits| |done].
  apply filled_nonneg. unfold per_type_target. lia.
Qed.

(** * Further properties of the code *)

(** ** Stripping *)

Arguments PyStr.is_space : simpl never.
Arguments PyStr.is_digit : simpl never.

Lemma lstrip_rstrip (s : string) :
  PyStr.lstrip (PyStr.rstrip s) = PyStr.rstrip (PyStr.lstrip s).
Proof.
  induction s as [|c s IH]; simpl; [done|].
  destruct (PyStr.is_space c) eqn:Hc.
  - rewrite <- IH. destruct (PyStr.rstrip s) as [|d r]; simpl;
      rewrite ?Hc; done.
  - destruct (PyStr.rstrip s) as [|d r] eqn:Hr; simpl; rewrite ?Hc, ?Hr; done.
Qed.

Lemma rstrip_idemp (s : string) :
  PyStr.rstrip (PyStr.rstrip s) = PyStr.rstrip s.
Proof.
  induction s as [|c s IH]; simpl; [done|].
  destruct (PyStr.rstrip s) as [|d r] eqn:Hr.
  - destruct (PyStr.is_space c) eqn:Hc; simpl; rewrite ?Hc; done.
  - simpl in *. by rewrite IH.
Qed.

Lemma lstrip_idemp (s : string) :
  PyStr.lstrip (PyStr.lstrip s) = PyStr.lstrip s.
Proof.
  induction s as [|c s IH]; simpl; [done|].
  destruct (PyStr.is_space c) eqn:Hc; [done|]. simpl. rewrite ?Hc. done.
Qed.

Lemma strip_idemp (s : string) : PyStr.strip (PyStr.strip s) = PyStr.strip s.
Proof.
  unfold PyStr.strip.
  by rewrite lstrip_rstrip, lstrip_idemp, rstrip_idemp.
Qed.

Lemma strip_rstrip (s : string) : PyStr.strip (PyStr.rstrip s) = PyStr.strip s.
Proof. unfold PyStr.strip. by rewrite lstrip_rstrip, rstrip_idemp. Qed.

Lemma lstrip_forall (p : ascii → bool) (s : string) :
  string_forall p s = true → string_forall p (PyStr.lstrip s) = true.
Proof.
  induction s as [|c s IH]; simpl; [done|].
  intros [Hc Hs]%andb_true_iff.
  destruct (PyStr.is_space c); [by apply IH|]. simpl. by rewrite Hc, Hs.
Qed.

Lemma rstrip_forall (p : ascii → bool) (s : string) :
  string_forall p s = true → string_forall p (PyStr.rstrip s) = true.
Proof.
  induction s as [|c s IH]; simpl; [done|].
  intros [Hc Hs]%andb_true_iff. specialize (IH Hs).
  destruct (PyStr.rstrip s); simpl in *.
  - destruct (PyStr.is_space c); simpl; rewrite ?Hc; done.
  - by rewrite Hc, IH.
Qed.

Lemma split_forall (sep : ascii) (s piece : string) :
  piece ∈ PyStr.split sep s →
  string_forall (λ c, negb (Ascii.eqb c sep)) piece = true.
Proof.
  revert piece. induction s as [|c s IH]; simpl; intros piece Hin.
  { by apply list_elem_of_singleton in Hin as ->. }
  destruct (Ascii.eqb c sep) eqn:Hc.
  - apply elem_of_cons in Hin as [->|Hin]; [done|by apply IH].
  - destruct (PyStr.split sep s) as [|x xs].
    + apply list_elem_of_singleton in Hin as ->. simpl. by rewrite Hc.
    + apply elem_of_cons in Hin as [->|Hin].
      * simpl. rewrite Hc. simpl. apply IH. by left.
      * apply IH. by right.
Qed.

(** ** The codes of a document *)

(** X1. Every code that [extract_test_types] returns is non-empty and has
    no white space at either end; when the codes are stored as one string
    no code holds a comma. *)
Theorem extract_test_types_clean (doc : Document) (c : string) :
  c ∈ extract_test_types doc →
  c ≠ "" ∧ PyStr.strip c = c
  ∧ (∀ raw, test_type_codes (metadata doc) = Some (CodesStr raw) →
       string_forall (λ ch, negb (Ascii.eqb ch ",")) c = true).
Proof.
  unfold extract_test_types. intros Hc.
  assert (∀ l, c ∈ List.filter nonempty (map PyStr.strip l) →
               c ≠ "" ∧ PyStr.strip c = c ∧ ∃ x, x ∈ l ∧ c = PyStr.strip x)
    as Hclean.
  { intros l Hin. apply list_elem_of_In, filter_In in Hin as [Hin Hne].
    apply in_map_iff in Hin as (x & <- & Hx). split_and!.
    - intros Heq. by rewrite Heq in Hne.
    - apply strip_idemp.
    - exists x. by rewrite list_elem_of_In. }
  destruct (test_type_codes (metadata doc)) as [[raw|raw|]|];
    try (by apply elem_of_nil in Hc).
  - destruct (Hclean _ Hc) as (Hne & Hs & x & Hx & ->).
    split_and!; [done..|]. intros raw' [= <-].
    unfold PyStr.strip. apply rstrip_forall, lstrip_forall.
    by eapply split_forall.
  - destruct (Hclean _ Hc) as (Hne & Hs & _). split_and!; done.
Qed.

Lemma extract_test_types_clean_witness :
  "K" ≠ "" ∧ PyStr.strip "K" = "K".
Proof.
  pose proof (extract_test_types_clean
                (catalog_doc (Some "https://shl/a") " K , ,P") "K") as H.
  assert ("K" ∈ extract_test_types
                  (catalog_doc (Some "https://shl/a") " K , ,P")) as Hin.
  { vm_compute. left. }
  destruct (H Hin) as (Hne & Hs & _). exact (conj Hne Hs).
Defined.

(** ** The description of a built document *)

Lemma append_nil (s : string) : "" +:+ s = s.
Proof. reflexivity. Qed.

Lemma append_cons (c : ascii) (s1 s2 : string) :
  String c s1 +:+ s2 = String c (s1 +:+ s2).
Proof. reflexivity. Qed.

Lemma append_assoc (s1 s2 s3 : string) :
  (s1 +:+ s2) +:+ s3 = s1 +:+ (s2 +:+ s3).
Proof.
  induction s1 as [|c s1 IH]; rewrite ?append_nil, ?append_cons; [done|].
  by rewrite IH.
Qed.

Lemma rstrip_app (s1 s2 : string) :
  PyStr.rstrip (s1 +:+ s2)
  = match PyStr.rstrip s2 with
    | EmptyString => PyStr.rstrip s1
    | r => s1 +:+ r
    end.
Proof.
  induction s1 as [|c s1 IH]; rewrite ?append_nil, ?append_cons; simpl.
  - by destruct (PyStr.rstrip s2).
  - rewrite IH. destruct (PyStr.rstrip s2) as [|a r]; [done|].
    by destruct s1; rewrite ?append_nil, ?append_cons.
Qed.

Lemma rstrip_app_spaces (s1 s2 : string) :
  string_forall PyStr.is_space s2 = true →
  PyStr.rstrip (s1 +:+ s2) = PyStr.rstrip s1.
Proof.
  intros Hs2. rewrite rstrip_app.
  assert (PyStr.rstrip s2 = "") as ->; [|done].
  induction s2 as [|c s2 IH]; simpl in *; [done|].
  apply andb_true_iff in Hs2 as [Hc Hs2]. by rewrite IH, Hc.
Qed.

Lemma strip_app_spaces (s1 s2 : string) :
  string_forall PyStr.is_space s2 = true →
  PyStr.strip (s1 +:+ s2) = PyStr.strip s1.
Proof.
  intros Hs2. unfold PyStr.strip.
  by rewrite <- !lstrip_rstrip, rstrip_app_spaces.
Qed.

Lemma after_first_prefix (sep rest : string) :
  PyStr.after_first sep (sep +:+ rest) = Some rest.
Proof.
  assert (String.prefix sep (sep +:+ rest) = true) as Hp.
  { induction sep as [|c sep IH]; rewrite ?append_nil, ?append_cons; simpl;
      [by destruct rest|].
    by destruct (ascii_dec c c). }
  assert (PyStr.drop_chars (String.length sep) (sep +:+ rest) = rest) as Hd.
  { clear Hp.
    induction sep as [|c sep IH]; rewrite ?append_nil, ?append_cons; simpl;
      done. }
  destruct sep as [|c sep]; [by destruct rest|].
  rewrite append_cons in *. simpl in *. by rewrite Hp, Hd.
Qed.

Lemma strip_header (rest : string) :
  PyStr.strip (Embeddings.nl +:+ Embeddings.nl +:+ "Description:" +:+ rest)
  = "Description:" +:+ PyStr.rstrip rest.
Proof.
  unfold PyStr.strip.
  change (PyStr.lstrip
            (Embeddings.nl +:+ Embeddings.nl +:+ "Description:" +:+ rest))
    with ("Description:" +:+ rest).
  rewrite rstrip_app. by destruct (PyStr.rstrip rest).
Qed.

Lemma strip_nl (rest : string) :
  PyStr.strip (Embeddings.nl +:+ rest) = PyStr.strip rest.
Proof. reflexivity. Qed.

(** X2. The description that [extract_description] reads back from a
    document built by [row_to_document] is the description of the row
    followed by the block of the categories, stripped: the header
    [Description:] is removed, the line [Assessment Categories:] and the
    expanded categories stay in it. *)
Theorem description_of_built_document (row : Embeddings.CatalogRow.t) :
  extract_description (Embeddings.row_to_document row)
  = PyStr.strip
      (Embeddings.CatalogRow.description row
       +:+ Embeddings.nl +:+ Embeddings.nl +:+ "Assessment Categories:"
       +:+ Embeddings.nl
       +:+ Embeddings.expand_test_types (Embeddings.CatalogRow.test_type row)).
Proof.
  unfold extract_description, Embeddings.row_to_document. simpl page_content.
  unfold Embeddings.page_content_of.
  rewrite strip_header, after_first_prefix, strip_rstrip, strip_nl.
  etransitivity;
    [|by apply (strip_app_spaces _ (Embeddings.nl +:+ "    "))].
  by rewrite !append_assoc.
Qed.

(** ** The type flags of a built document *)

Lemma flag_key_inj : Inj (=) (=) (String.append "is_type_").
Proof.
  intros a b H. repeat rewrite append_cons in H. rewrite !append_nil in H.
  by simplify_eq.
Qed.

Lemma type_flags_true_code (row : Embeddings.CatalogRow.t) (c : string) :
  Embeddings.type_flags row !! ("is_type_" +:+ c) = Some true →
  c ∈ Embeddings.row_codes row.
Proof.
  unfold Embeddings.type_flags. intros Hflag.
  apply elem_of_list_to_map_2, list_elem_of_fmap in Hflag
    as (code & Heq & _).
  pose proof (f_equal fst Heq) as Hk. pose proof (f_equal snd Heq) as Hb.
  simpl in Hk, Hb. apply flag_key_inj in Hk as <-.
  symmetry in Hb. by apply bool_decide_eq_true in Hb.
Qed.


(** ** Text durations *)

Lemma int_of_digits_from_nonneg (acc : Z) (s : string) :
  0 ≤ acc → all_digits s = true → 0 ≤ PyStr.int_of_digits_from acc s.
Proof.
  unfold all_digits. revert acc.
  induction s as [|c s IH]; simpl; intros acc Hacc Hs; [done|].
  apply andb_true_iff in Hs as [Hc Hs]. apply IH; [|done].
  unfold PyStr.is_digit in Hc. unfold PyStr.digit_value.
  apply andb_true_iff in Hc as [Hlo Hhi].
  apply Nat.leb_le in Hlo. lia.
Qed.

Lemma take_digits_all_digits (s : string) :
  all_digits (PyStr.take_digits s) = true.
Proof.
  unfold all_digits. induction s as [|c s IH]; simpl; [done|].
  destruct (PyStr.is_digit c) eqn:Hc; simpl; [|done]. by rewrite Hc.
Qed.

Lemma search_digits_Some (s m : string) :
  PyStr.search_digits s = Some m → all_digits m = true ∧ no_digit s = false.
Proof.
  unfold no_digit. induction s as [|c s IH]; simpl; [done|].
  destruct (PyStr.is_digit c) eqn:Hc; simpl.
  - intros [= <-]. split; [|done].
    unfold all_digits. simpl. rewrite Hc. apply take_digits_all_digits.
  - intros Hm. destruct (IH Hm) as [Hd Hn]. by rewrite Hn.
Qed.

Lemma search_digits_None (s : string) :
  PyStr.search_digits s = None → no_digit s = true.
Proof.
  unfold no_digit. induction s as [|c s IH]; simpl; [done|].
  destruct (PyStr.is_digit c) eqn:Hc; simpl; [done|]. apply IH.
Qed.

(** X4. A duration given as text parses exactly when the text holds a
    digit, and the number it gives is never negative: a sign before the
    digits is ignored. *)
Theorem duration_as_int_text (s : string) :
  match duration_as_int (Some (SStr s)) with
  | Some n => 0 ≤ n ∧ no_digit s = false
  | None => no_digit s = true
  end.
Proof.
  unfold duration_as_int.
  destruct (PyStr.search_digits s) as [m|] eqn:Hm.
  - apply search_digits_Some in Hm as [Hd Hn]. split; [|done].
    by apply int_of_digits_from_nonneg.
  - rewrite float_of_digitless_no_int. by apply search_digits_None.
Qed.

(** ** From domains to codes *)

Lemma domain_code_name (d t : string) :
  t ∈ default [] (DOMAIN_TO_TEST_TYPES !! d) ↔ TEST_TYPE_MAP !! t = Some d.
Proof.
  split.
  - destruct (DOMAIN_TO_TEST_TYPES !! d) as [codes|] eqn:Hd; simpl;
      [|by intros ?%elem_of_nil].
    unfold DOMAIN_TO_TEST_TYPES in Hd. apply elem_of_list_to_map_2 in Hd.
    repeat (apply elem_of_cons in Hd as [Hd|Hd];
            [injection Hd as -> ->;
             by intros ->%list_elem_of_singleton|]).
    by apply elem_of_nil in Hd.
  - intros Ht. unfold TEST_TYPE_MAP in Ht. apply elem_of_list_to_map_2 in Ht.
    repeat (apply elem_of_cons in Ht as [Ht|Ht];
            [injection Ht as -> ->; vm_compute; left|]).
    by apply elem_of_nil in Ht.
Qed.

Lemma elem_of_infer_fold (domains : list string) (acc : gset string)
    (t : string) :
  t ∈ foldl (λ (acc : gset string) d,
               acc ∪ list_to_set (default [] (DOMAIN_TO_TEST_TYPES !! d)))
        acc domains
  ↔ t ∈ acc ∨ ∃ d, d ∈ domains ∧ t ∈ default [] (DOMAIN_TO_TEST_TYPES !! d).
Proof.
  revert acc. induction domains as [|d domains IH]; intros acc; simpl.
  - split; [by left|]. intros [?|(d & Hd & _)]; [done|].
    by apply elem_of_nil in Hd.
  - rewrite IH, elem_of_union, elem_of_list_to_set. split.
    + intros [[?|?]|(d' & Hd' & Ht)].
      * by left.
      * right. exists d. split; [by left|done].
      * right. exists d'. split; [by right|done].
    + intros [?|(d' & Hd' & Ht)]; [by left; left|].
      apply elem_of_cons in Hd' as [->|Hd']; [by left; right|].
      right. eauto.
Qed.

Lemma elem_of_infer (domains : list string) (t : string) :
  t ∈ infer_required_test_types domains
  ↔ ∃ d, d ∈ domains ∧ TEST_TYPE_MAP !! t = Some d.
Proof.
  unfold infer_required_test_types.
  rewrite elem_of_elements, elem_of_infer_fold. split.
  - intros [?|(d & Hd & Ht)]; [set_solver|].
    exists d. by rewrite <- domain_code_name.
  - intros (d & Hd & Ht). right. exists d. by rewrite domain_code_name.
Qed.

(** X5. [infer_required_test_types] returns, without repetition, exactly
    the codes whose category name is one of the given domains; a domain
    that is not a category name adds nothing. *)
Theorem infer_required_test_types_codes (domains : list string) :
  NoDup (infer_required_test_types domains)
  ∧ ∀ t, t ∈ infer_required_test_types domains
         ↔ ∃ d, d ∈ domains ∧ TEST_TYPE_MAP !! t = Some d.
Proof.
  split; [|apply elem_of_infer].
  unfold infer_required_test_types. apply NoDup_elements.
Qed.

Lemma domain_has_code (d : string) :
  d ∈ DomainType → ∃ t, TEST_TYPE_MAP !! t = Some d.
Proof.
  unfold DomainType. intros Hd.
  repeat (apply elem_of_cons in Hd as [->|Hd];
          [first [ by exists "A" | by exists "B" | by exists "C"
                 | by exists "D" | by exists "E" | by exists "K"
                 | by exists "P" | by exists "S" ]|]).
  by apply elem_of_nil in Hd.
Qed.

Lemma detect_query_intent_valid
    (llm_intent : string → result (list string)) (query : string)
    (domains : list string) :
  detect_query_intent llm_intent query = Ok domains →
  Forall (λ d, d ∈ DomainType) domains.
Proof.
  unfold detect_query_intent.
  destruct (llm_intent query) as [reply|e]; simpl.
  - unfold QueryIntent_validate.
    destruct (forallb _ reply) eqn:Hall; simpl.
    + intros [= <-]. apply Forall_forall. intros d Hd.
      rewrite forallb_forall in Hall. apply list_elem_of_In in Hd.
      by apply (bool_decide_eq_true_1 _), Hall.
    + intros [= <-]. constructor.
  - destruct e; try done. intros [= <-]. constructor.
Qed.

(** X6. The domains that [detect_query_intent] returns are all of the
    fixed list; the codes K and P are substituted exactly when it returns
    no domain, and otherwise every returned domain has its code among the
    required ones. *)
Theorem fallback_only_without_domain
    (llm_intent : string → result (list string)) (query : string)
    (domains : list string) :
  detect_query_intent llm_intent query = Ok domains →
  Forall (λ d, d ∈ DomainType) domains
  ∧ (domains = [] →
     with_fallback (infer_required_test_types domains) = ["K"; "P"])
  ∧ (domains ≠ [] →
     with_fallback (infer_required_test_types domains)
     = infer_required_test_types domains
     ∧ ∀ d, d ∈ domains →
         ∃ t, t ∈ infer_required_test_types domains
              ∧ TEST_TYPE_MAP !! t = Some d).
Proof.
  intros Hdetect.
  pose proof (detect_query_intent_valid _ _ _ Hdetect) as Hvalid.
  split_and!; [done| |].
  - intros ->. by rewrite infer_no_domain.
  - intros Hne.
    assert (∀ d, d ∈ domains →
              ∃ t, t ∈ infer_required_test_types domains
                   ∧ TEST_TYPE_MAP !! t = Some d) as Hcodes.
    { intros d Hd. rewrite Forall_forall in Hvalid.
      destruct (domain_has_code d (Hvalid d Hd)) as [t Ht].
      exists t. split; [|done]. apply elem_of_infer. eauto. }
    split; [|done].
    destruct domains as [|d domains]; [done|].
    destruct (Hcodes d) as (t & Ht & _); [by left|].
    destruct (infer_required_test_types (d :: domains)); [|done].
    by apply elem_of_nil in Ht.
Qed.

Lemma fallback_only_without_domain_witness :
  with_fallback (infer_required_test_types ["Simulations"])
  = infer_required_test_types ["Simulations"].
Proof.
  refine (proj1 (proj2 (proj2
    (fallback_only_without_domain (λ _, Ok ["Simulations"]) "pilot"
       ["Simulations"] eq_refl)) _)).
  discriminate.
Defined.

(** ** Balanced selection: what the two passes build *)

Lemma loop_until_full_trace (k : Z) (body : Document → sel_state → sel_state)
    (docs : list Document) (st : sel_state) :
  (∀ doc st', appended doc st' (body doc st')) →
  ∃ l, selected (loop_until_full k body docs st) = selected st ++ l
       ∧ l `sublist_of` docs
       ∧ Forall (λ d, has_url d = true) l
       ∧ seen_urls (loop_until_full k body docs st)
         = list_to_set (urls l) ∪ seen_urls st.
Proof.
  intros Hbody. revert st.
  induction docs as [|doc docs IH]; intros st; simpl.
  { exists []. rewrite app_nil_r. split_and!; [done..|].
    unfold urls. simpl. by rewrite (left_id_L ∅ (∪)). }
  case_bool_decide.
  { exists []. rewrite app_nil_r.
    split_and!; [done|apply sublist_nil_l|done|].
    unfold urls. simpl. by rewrite (left_id_L ∅ (∪)). }
  destruct (IH (body doc st)) as (l & Hsel & Hsub & Hurl & Hseen).
  destruct (Hbody doc st) as [Heq|(Hsel' & Hseen' & Hne & _)].
  - rewrite Heq in Hsel, Hseen. rewrite Heq.
    exists l. split_and!; [done|by apply sublist_cons|done|done].
  - exists (doc :: l). split_and!.
    + by rewrite Hsel, Hsel', <- app_assoc.
    + by apply sublist_skip.
    + constructor; [by rewrite has_url_nonempty|done].
    + rewrite Hseen, Hseen'. unfold urls. simpl.
      apply set_eq. intros u. rewrite !elem_of_union. tauto.
Qed.

Lemma loop_until_full_exhausts (k : Z)
    (body : Document → sel_state → sel_state) (docs : list Document)
    (st : sel_state) :
  (∀ doc st', appended doc st' (body doc st')) →
  (∀ doc st', has_url doc = true → url_of doc ∈ seen_urls (body doc st')) →
  k ≤ len (selected (loop_until_full k body docs st))
  ∨ ∀ d, d ∈ docs → has_url d = true →
         url_of d ∈ seen_urls (loop_until_full k body docs st).
Proof.
  intros Hbody Hsees. revert st.
  induction docs as [|doc docs IH]; intros st; simpl.
  { right. by intros d ?%elem_of_nil. }
  case_bool_decide; [by left|].
  destruct (IH (body doc st)) as [?|Hall]; [by left|]. right.
  intros d [->|Hd]%elem_of_cons Hurl; [|by apply Hall].
  destruct (loop_until_full_trace k body docs (body doc st) Hbody)
    as (l & _ & _ & _ & ->).
  apply elem_of_union_r. by apply Hsees.
Qed.

Lemma second_pass_body_sees (doc : Document) (st : sel_state) :
  has_url doc = true → url_of doc ∈ seen_urls (second_pass_body doc st).
Proof.
  rewrite has_url_nonempty. unfold second_pass_body. intros ->. simpl.
  case_bool_decide; simpl; [done|]. apply elem_of_union_l. set_solver.
Qed.

Lemma slice_to_fits {A : Type} (k : Z) (l : list A) :
  len l ≤ Z.max 0 k → slice_to k l = l.
Proof.
  unfold slice_to, len. intros Hl. case_bool_decide.
  - apply take_ge. lia.
  - destruct l; [apply take_nil|]. simpl in Hl. lia.
Qed.

Lemma balanced_selection_untruncated (docs : list Document)
    (required : list string) (k : Z) :
  balanced_selection docs required k
  = selected (second_pass k docs (first_pass_result docs required k)).
Proof.
  unfold balanced_selection. apply slice_to_fits.
  by destruct (second_pass_result_inv docs required k).
Qed.

Lemma elem_of_urls_dedup_from (seen : list string) (docs : list Document)
    (u : string) :
  u ∈ urls (dedup_from seen docs) ↔ u ∈ urls docs ∧ u ∉ seen.
Proof.
  unfold urls. revert seen.
  induction docs as [|doc docs IH]; intros seen; simpl.
  { split; [by intros ?%elem_of_nil|by intros [?%elem_of_nil _]]. }
  case_bool_decide as Hin; simpl; rewrite ?elem_of_cons, IH.
  - split; [tauto|]. intros [[->|?] ?]; [done|tauto].
  - rewrite not_elem_of_cons. split.
    + intros [->|(? & ? & ?)]; [|tauto]. split; [by left|done].
    + intros [Hu ?]. destruct (decide (u = url_of doc)); tauto.
Qed.

Lemma NoDup_urls_dedup_from (seen : list string) (docs : list Document) :
  NoDup (urls (dedup_from seen docs)).
Proof.
  unfold urls. revert seen.
  induction docs as [|doc docs IH]; intros seen; simpl; [constructor|].
  case_bool_decide as Hin; simpl; [done|]. constructor; [|done].
  intros Hu. apply elem_of_urls_dedup_from in Hu as [_ Hu].
  apply Hu. by left.
Qed.

(** X7. The balanced selection fills up: its output has as many documents
    as [k] allows, or one per distinct non-empty url of the candidates when
    there are fewer than [k] of these. *)
Theorem balanced_selection_fills (docs : list Document)
    (required : list string) (k : Z) :
  len (balanced_selection docs required k)
  = Z.max 0 (Z.min k (len (dedup_by_url (List.filter has_url docs)))).
Proof.
  rewrite balanced_selection_untruncated.
  set (st1 := first_pass_result docs required k).
  destruct (second_pass_result_inv docs required k) as [Hseen Hnd Hsub Hlen].
  fold st1 in Hseen, Hnd, Hsub, Hlen.
  set (S := selected (second_pass k docs st1)) in *.
  set (D := dedup_by_url (List.filter has_url docs)).
  assert (Forall (λ d, has_url d = true) S) as Hurls.
  { unfold S, st1, second_pass, first_pass_result, first_pass.
    destruct (loop_until_full_trace k second_pass_body docs
                (loop_until_full k
                   (first_pass_body required (per_type_target required k))
                   docs (initial_state required))
                second_pass_body_appended) as (l2 & -> & _ & H2 & _).
    destruct (loop_until_full_trace k
                (first_pass_body required (per_type_target required k))
                docs (initial_state required)
                (first_pass_body_appended _ _)) as (l1 & -> & _ & H1 & _).
    simpl. by apply Forall_app. }
  assert (∀ u, u ∈ urls S → u ∈ urls D) as Hincl.
  { intros u (d & -> & Hd)%list_elem_of_fmap.
    apply elem_of_urls_dedup_from. split; [|by intros ?%elem_of_nil].
    apply list_elem_of_fmap. exists d. split; [done|].
    apply list_elem_of_In, filter_In. rewrite <- list_elem_of_In.
    rewrite Forall_forall in Hurls. eauto. }
  assert (length S ≤ length D)%nat as Hle.
  { rewrite <- (length_fmap url_of S), <- (length_fmap url_of D).
    by apply submseteq_length, NoDup_submseteq. }
  destruct (loop_until_full_exhausts k second_pass_body docs st1
              second_pass_body_appended second_pass_body_sees)
    as [Hfull|Hall].
  - fold (second_pass k docs st1) in Hfull. fold S in Hfull.
    unfold len in *. lia.
  - fold (second_pass k docs st1) in Hall.
    assert (length D ≤ length S)%nat.
    { rewrite <- (length_fmap url_of S), <- (length_fmap url_of D).
      apply submseteq_length, NoDup_submseteq;
        [apply NoDup_urls_dedup_from|].
      intros u [Hu _]%elem_of_urls_dedup_from.
      apply list_elem_of_fmap in Hu as (d & -> & Hd).
      apply list_elem_of_In, filter_In in Hd as [Hd Hurl].
      apply Hseen, Hall; [by apply list_elem_of_In|done]. }
    unfold len in *. lia.
Qed.


Lemma first_pass_is_spec_with_room_witness :
  selected (first_pass_result [doc_a; doc_b; doc_x] ["K"; "P"] 2)
  = spec_first_pass ["K"; "P"] 2 [doc_a; doc_b; doc_x].
Proof.
  apply first_pass_is_spec_with_room.
  - apply (bool_decide_unpack _). vm_compute. exact I.
  - vm_compute. discriminate.
  - repeat constructor.
Defined.

(** ** Balanced selection: every required type is served *)

Lemma accept_count_pos (t : string) (accepted : list Document) :
  0 < accept_count t accepted →
  ∃ d, d ∈ accepted ∧ t ∈ extract_test_types d.
Proof.
  unfold accept_count, len.
  destruct (List.filter _ accepted) as [|d l] eqn:Hf; simpl; [lia|].
  intros _. exists d.
  assert (In d (List.filter
                  (λ d, bool_decide (t ∈ extract_test_types d)) accepted))
    as Hd by (rewrite Hf; by left).
  apply filter_In in Hd as [Hd Ht].
  split; [by apply list_elem_of_In|by apply bool_decide_eq_true in Ht].
Qed.

Lemma capped_step_serves (required : list string) (k target : Z) (t : string)
    (docs accepted : list Document) :
  len required * target ≤ k → 1 ≤ target → t ∈ required →
  len accepted ≤ filled required target accepted →
  (∀ d, d ∈ docs → has_url d = true → url_of d ∉ urls accepted) →
  NoDup (urls (List.filter has_url docs)) →
  (0 < accept_count t accepted
   ∨ ∃ d, d ∈ docs ∧ has_url d = true ∧ t ∈ extract_test_types d) →
  0 < accept_count t (foldl (capped_step required k target) accepted docs).
Proof.
  intros Hfit Htarget Ht. revert accepted.
  induction docs as [|doc docs IH]; intros accepted Hinv Hnew Hnd Hsome; simpl.
  { destruct Hsome as [?|(d & Hd & _)]; [done|]. by apply elem_of_nil in Hd. }
  assert (NoDup (urls (List.filter has_url docs))
          ∧ (has_url doc = true →
             ∀ d, d ∈ docs → has_url d = true → url_of d ≠ url_of doc))
    as [Hnd' Hfresh].
  { simpl in Hnd. destruct (has_url doc); [|done].
    unfold urls in Hnd. simpl in Hnd. apply NoDup_cons in Hnd as [Hdoc Hnd].
    split; [done|]. intros _ d Hd Hurl Heq. apply Hdoc. rewrite <- Heq.
    apply list_elem_of_fmap. exists d. split; [done|].
    apply list_elem_of_In, filter_In. by rewrite <- list_elem_of_In. }
  unfold capped_step at 2.
  destruct (capped_accepts required k target accepted doc) eqn:Hacc.
  - apply andb_true_iff in Hacc as [Hacc Hspec].
    apply andb_true_iff in Hacc as [_ Hne]. rewrite <- has_url_nonempty in Hne.
    destruct (spec_accepts_room _ _ _ _ Hspec) as (t' & Ht' & Hd' & Hroom).
    pose proof (filled_accept _ _ _ doc _ Ht' Hd' Hroom).
    apply IH; [| |done|].
    + unfold len in *. rewrite length_app. simpl. lia.
    + intros d Hd Hurl. unfold urls. rewrite fmap_app, elem_of_app.
      intros [Hin|Hin%list_elem_of_singleton].
      * eapply Hnew; [by right|done|done].
      * by eapply Hfresh.
    + rewrite accept_count_snoc.
      destruct Hsome as [?|(d & [->|Hd]%elem_of_cons & Hurl & Hdt)].
      * left. case_bool_decide; lia.
      * left. rewrite bool_decide_eq_true_2 by done.
        unfold accept_count, len. lia.
      * right. eauto.
  - apply IH; [done| |done|].
    + intros d Hd Hurl. apply Hnew; [by right|done].
    + destruct Hsome as [?|(d & [->|Hd]%elem_of_cons & Hurl & Hdt)];
        [by left| |right; eauto].
      left. destruct (decide (0 < accept_count t accepted)) as [|Hzero];
        [done|exfalso].
      assert (accept_count t accepted < target) as Hroom by lia.
      pose proof (filled_room _ _ _ _ Ht Hroom).
      unfold capped_accepts, spec_accepts in Hacc.
      rewrite has_url_nonempty in Hurl.
      rewrite Hurl, bool_decide_eq_true_2 in Hacc by lia.
      rewrite bool_decide_eq_true_2 in Hacc
        by (apply Hnew; [by left|by rewrite has_url_nonempty]).
      simpl in Hacc.
      assert (existsb (λ t0, bool_decide (t0 ∈ extract_test_types doc)
                             && bool_decide (accept_count t0 accepted < target))
                required = true) as Hex; [|by rewrite Hex in Hacc].
      apply existsb_exists. exists t. split; [by apply list_elem_of_In|].
      by rewrite !bool_decide_eq_true_2.
Qed.

(** X10. With at least as many places as required codes, and candidates
    whose urls are pairwise distinct, every required code that some
    candidate with a url carries is carried by a document of the output. *)
Theorem balanced_selection_serves_required (docs : list Document)
    (required : list string) (k : Z) (t : string) (d : Document) :
  NoDup required → len required ≤ k →
  NoDup (urls (List.filter has_url docs)) →
  t ∈ required → d ∈ docs → has_url d = true → t ∈ extract_test_types d →
  ∃ d', d' ∈ balanced_selection docs required k
        ∧ t ∈ extract_test_types d'.
Proof.
  intros Hreq Hk Hnd Ht Hd Hurl Hdt.
  rewrite balanced_selection_untruncated.
  destruct (loop_until_full_trace k second_pass_body docs
              (first_pass_result docs required k) second_pass_body_appended)
    as (fill & Hsel & _).
  unfold second_pass. rewrite Hsel. clear Hsel.
  unfold first_pass_result.
  destruct (first_pass_refines required k (per_type_target required k) docs
              (initial_state required) Hreq (initial_state_tracks required))
    as [-> _].
  change (selected (initial_state required)) with (@nil Document).
  assert (0 < accept_count t
                (foldl (capped_step required k (per_type_target required k))
                   [] docs)) as Hpos.
  { apply capped_step_serves; try done.
    - by apply target_fits.
    - unfold per_type_target. lia.
    - apply (filled_nonneg required _ []). unfold per_type_target. lia.
    - intros ? _ _ ?%elem_of_nil. done.
    - right. eauto. }
  apply accept_count_pos in Hpos as (d' & Hd' & Ht').
  exists d'. split; [|done]. apply elem_of_app. by left.
Qed.

Lemma balanced_selection_serves_required_witness :
  ∃ d', d' ∈ balanced_selection [doc_b; doc_x; doc_a] ["K"; "P"] 2
        ∧ "K" ∈ extract_test_types d'.
Proof.
  apply (balanced_selection_serves_required [doc_b; doc_x; doc_a]
           ["K"; "P"] 2 "K" doc_a).
  - apply (bool_decide_unpack _). vm_compute. exact I.
  - vm_compute. discriminate.
  - apply (bool_decide_unpack _). vm_compute. exact I.
  - apply (bool_decide_unpack _). vm_compute. exact I.
  - right. right. left.
  - reflexivity.
  - apply (bool_decide_unpack _). vm_compute. exact I.
Defined.

(** ** Retrieval *)

Lemma merge_app (docs1 docs2 : list Document)
    (st : list Document * gset string) :
  merge docs2 (merge docs1 st) = merge (docs1 ++ docs2) st.
Proof. unfold merge. by rewrite foldl_app. Qed.

Lemma merge_dedup (docs : list Document) (st : list Document * gset string)
    (seen : list string) :
  (∀ u, u ∈ seen ↔ u ∈ st.2) →
  (merge docs st).1 = st.1 ++ dedup_from seen (List.filter has_url docs).
Proof.
  unfold merge. revert st seen.
  induction docs as [|doc docs IH]; intros st seen Hseen; simpl.
  { by rewrite app_nil_r. }
  unfold merge_step at 2, has_url, truthy.
  destruct (assessment_url (metadata doc)) as [u|] eqn:Hu; [|by apply IH].
  fold (nonempty u). destruct (nonempty u) eqn:Hne; simpl; [|by apply IH].
  assert (url_of doc = u) as Hurl by (unfold url_of; by rewrite Hu).
  rewrite Hurl. case_bool_decide as Hin; simpl.
  - rewrite bool_decide_eq_true_2 by (by apply Hseen). by apply IH.
  - rewrite bool_decide_eq_false_2 by (by rewrite Hseen).
    rewrite (IH _ (u :: seen)); simpl; [by rewrite <- app_assoc|].
    intros v. rewrite elem_of_cons, elem_of_union, elem_of_singleton, Hseen.
    tauto.
Qed.

Lemma retrieve_per_type_Ok
    (similarity_search : string → Z → option string → result (list Document))
    (query : string) (per_type_k : Z) (types : list string)
    (results : list (list Document)) (st : list Document * gset string) :
  Forall2 (λ t r, similarity_search query per_type_k (Some ("is_type_" +:+ t))
                  = Ok r) types results →
  retrieve_per_type similarity_search query per_type_k types st
  = Ok (merge (concat results) st).
Proof.
  intros Hall. revert st.
  induction Hall as [|t r types results Ht Hall IH]; intros st; simpl; [done|].
  by rewrite Ht, bind_Ok, IH, merge_app.
Qed.

(** X11. When the searches succeed, [retrieve] returns the documents found,
    those of the filtered searches in the order of the required types and
    then those of the top-up search, without the documents that have no
    url and keeping the first document of each url; the top-up search is
    made only when fewer than 20 documents were kept, and asks for the
    missing number. *)
Theorem retrieve_first_seen
    (similarity_search : string → Z → option string → result (list Document))
    (query : string) (required : list string)
    (results : list (list Document)) :
  Forall2 (λ t r,
             similarity_search query
               (Z.max 1 (TOP_K_RETRIEVE / Z.max 1 (len required)))
               (Some ("is_type_" +:+ t)) = Ok r) required results →
  (TOP_K_RETRIEVE
   ≤ len (dedup_by_url (List.filter has_url (concat results))) →
   retrieve similarity_search query required
   = Ok (dedup_by_url (List.filter has_url (concat results))))
  ∧ (∀ extra_docs,
       len (dedup_by_url (List.filter has_url (concat results)))
       < TOP_K_RETRIEVE →
       similarity_search query
         (TOP_K_RETRIEVE
          - len (dedup_by_url (List.filter has_url (concat results))))
         None = Ok extra_docs →
       retrieve similarity_search query required
       = Ok (dedup_by_url
               (List.filter has_url (concat results ++ extra_docs)))).
Proof.
  intros Hall. unfold retrieve.
  rewrite (retrieve_per_type_Ok _ _ _ _ _ _ Hall), bind_Ok.
  assert ((merge (concat results) ([], ∅)).1
          = dedup_by_url (List.filter has_url (concat results))) as Hmerged.
  { rewrite (merge_dedup _ _ []); [done|].
    intros u. simpl. split; [by intros ?%elem_of_nil|set_solver]. }
  split.
  - intros Hfull. rewrite Hmerged.
    by rewrite bool_decide_eq_false_2 by lia.
  - intros extra_docs Hshort Hextra. rewrite Hmerged.
    rewrite bool_decide_eq_true_2 by done.
    rewrite Hextra, bind_Ok, merge_app.
    rewrite (merge_dedup _ _ []); [done|].
    intros u. simpl. split; [by intros ?%elem_of_nil|set_solver].
Qed.

Lemma retrieve_first_seen_witness :
  retrieve search_two_types "java developer" ["K"; "P"]
  = Ok [doc_a; doc_b; doc_x].
Proof.
  refine (proj2 (retrieve_first_seen search_two_types "java developer"
                   ["K"; "P"] [[doc_a; doc_nourl]; [doc_b; doc_a]] _)
            [doc_x; doc_b] _ _).
  - repeat constructor.
  - vm_compute. reflexivity.
  - reflexivity.
Defined.

(** ** The recommendations returned *)

Lemma merge_step_distinct (st : list Document * gset string) (doc : Document) :
  (NoDup (urls st.1) ∧ Forall (λ d, has_url d = true) st.1
   ∧ ∀ u, u ∈ st.2 ↔ u ∈ urls st.1) →
  NoDup (urls (merge_step st doc).1)
  ∧ Forall (λ d, has_url d = true) (merge_step st doc).1
  ∧ ∀ u, u ∈ (merge_step st doc).2 ↔ u ∈ urls (merge_step st doc).1.
Proof.
  intros (Hnd & Hurls & Hseen). unfold merge_step.
  destruct (assessment_url (metadata doc)) as [u|] eqn:Hu; [|done].
  destruct (nonempty u) eqn:Hne; simpl; [|done].
  case_bool_decide as Hin; simpl; [done|].
  assert (url_of doc = u) as Hurl by (unfold url_of; by rewrite Hu).
  unfold urls. rewrite fmap_app. simpl. rewrite Hurl. split_and!.
  - apply NoDup_app. split_and!; [done| |apply NoDup_singleton].
    intros v Hv ->%list_elem_of_singleton. apply Hin. by apply Hseen.
  - apply Forall_app. split; [done|]. constructor; [|done].
    unfold has_url, truthy. rewrite Hu. exact Hne.
  - intros v. rewrite elem_of_union, elem_of_singleton, elem_of_app,
      list_elem_of_singleton, Hseen. unfold urls. tauto.
Qed.

Lemma merge_distinct (docs : list Document) (st : list Document * gset string) :
  (NoDup (urls st.1) ∧ Forall (λ d, has_url d = true) st.1
   ∧ ∀ u, u ∈ st.2 ↔ u ∈ urls st.1) →
  NoDup (urls (merge docs st).1)
  ∧ Forall (λ d, has_url d = true) (merge docs st).1
  ∧ ∀ u, u ∈ (merge docs st).2 ↔ u ∈ urls (merge docs st).1.
Proof.
  unfold merge. revert st.
  induction docs as [|doc docs IH]; intros st Hst; simpl; [done|].
  by apply IH, merge_step_distinct.
Qed.

Lemma retrieve_distinct
    (similarity_search : string → Z → option string → result (list Document))
    (query : string) (required : list string) (retrieved : list Document) :
  retrieve similarity_search query required = Ok retrieved →
  NoDup (urls retrieved) ∧ Forall (λ d, has_url d = true) retrieved.
Proof.
  unfold retrieve.
  generalize (Z.max 1 (TOP_K_RETRIEVE / Z.max 1 (len required))).
  intros per_type_k.
  assert (∀ types st st',
    (NoDup (urls st.1) ∧ Forall (λ d, has_url d = true) st.1
     ∧ ∀ u, u ∈ st.2 ↔ u ∈ urls st.1) →
    retrieve_per_type similarity_search query per_type_k types st = Ok st' →
    NoDup (urls st'.1) ∧ Forall (λ d, has_url d = true) st'.1
    ∧ ∀ u, u ∈ st'.2 ↔ u ∈ urls st'.1) as Hper.
  { induction types as [|t types IH]; intros st st' Hst; simpl.
    - by intros [= <-].
    - destruct (similarity_search _ _ _) as [docs|]; [|done].
      rewrite bind_Ok. apply IH. by apply merge_distinct. }
  destruct (retrieve_per_type _ _ _ _ _) as [st|] eqn:Hst; [|done].
  rewrite bind_Ok.
  apply Hper in Hst as Hinv.
  2:{ simpl. split_and!; [constructor|constructor|].
      intros u. split; [set_solver|by intros ?%elem_of_nil]. }
  case_bool_decide.
  - destruct (similarity_search _ _ _) as [extra|]; [|done].
    rewrite bind_Ok. intros [= <-].
    destruct (merge_distinct extra st Hinv) as (? & ? & _). done.
  - intros [= <-]. destruct Hinv as (? & ? & _). done.
Qed.

Lemma balanced_selection_have_url (docs : list Document)
    (required : list string) (k : Z) :
  Forall (λ d, has_url d = true) (balanced_selection docs required k).
Proof.
  rewrite balanced_selection_untruncated.
  unfold second_pass, first_pass_result, first_pass.
  destruct (loop_until_full_trace k second_pass_body docs
              (loop_until_full k
                 (first_pass_body required (per_type_target required k))
                 docs (initial_state required))
              second_pass_body_appended) as (l2 & -> & _ & H2 & _).
  destruct (loop_until_full_trace k
              (first_pass_body required (per_type_target required k))
              docs (initial_state required)
              (first_pass_body_appended _ _)) as (l1 & -> & _ & H1 & _).
  simpl. by apply Forall_app.
Qed.

Lemma fst_zip_take {A B : Type} (l : list A) (k : list B) :
  (zip l k).*1 = take (length k) l.
Proof.
  revert k. induction l as [|x l IH]; intros [|y k]; simpl; [done..|].
  by rewrite IH.
Qed.

Lemma emit_all (k : Z) (ranked : list (Document * Z))
    (recommended : list Recommendation.t) (seen : gset string) :
  ranked = [] ∨ len recommended + len ranked ≤ k →
  NoDup (urls ranked.*1) →
  Forall (λ d, has_url d = true) ranked.*1 →
  (∀ d, d ∈ ranked.*1 → url_of d ∉ seen) →
  emit k ranked recommended seen
  = recommended ++ (recommendation_of <$> ranked.*1).
Proof.
  revert recommended seen.
  induction ranked as [|[doc sc] ranked IH];
    intros recommended seen Hroom Hnd Hurls Hnew; simpl.
  { by rewrite app_nil_r. }
  destruct Hroom as [?|Hroom]; [done|].
  inv Hurls as [|? ? Hurl Hurls'].
  unfold urls in Hnd. simpl in Hnd. apply NoDup_cons in Hnd as [Hdoc Hnd].
  unfold has_url, truthy in Hurl.
  destruct (assessment_url (metadata doc)) as [u|] eqn:Hu; [|done].
  fold (nonempty u) in Hurl. rewrite Hurl. simpl.
  assert (url_of doc = u) as Hdu by (unfold url_of; by rewrite Hu).
  rewrite bool_decide_eq_false_2
    by (rewrite <- Hdu; apply Hnew; by left).
  simpl.
  assert (to_recommendation u doc = recommendation_of doc) as ->.
  { unfold recommendation_of. by rewrite Hdu. }
  unfold len in *. rewrite length_app in *. simpl in *.
  case_bool_decide as Hfull.
  - destruct ranked; [by simpl|]. simpl in *. lia.
  - rewrite IH; [by rewrite <- app_assoc| |done|done|].
    + right. rewrite length_app. simpl. lia.
    + intros d Hd. rewrite not_elem_of_union, not_elem_of_singleton. split.
      * intros Heq. apply Hdoc. rewrite Hdu, <- Heq.
        by apply list_elem_of_fmap_2.
      * apply Hnew. by right.
Qed.

Lemma recommend_Ok_shape
    (llm_intent : string → result (list string))
    (llm_scores : string → list Document → result (list Z))
    (similarity_search : string → Z → option string → result (list Document))
    (query : string) (k : Z) (recommended : list Recommendation.t) :
  recommend llm_intent llm_scores similarity_search query k = Ok recommended →
  ∃ domains retrieved scores,
    detect_query_intent llm_intent query = Ok domains
    ∧ retrieve similarity_search query
        (with_fallback (infer_required_test_types domains)) = Ok retrieved
    ∧ score_with_llm llm_scores query
        (balanced_selection retrieved
           (with_fallback (infer_required_test_types domains)) k) = Ok scores
    ∧ recommended
      = recommendation_of
        <$> (rank (balanced_selection retrieved
                     (with_fallback (infer_required_test_types domains)) k)
               scores).*1.
Proof.
  unfold recommend.
  destruct (detect_query_intent llm_intent query) as [domains|]; [|done].
  rewrite bind_Ok. unfold recommend_for_types.
  set (required := with_fallback (infer_required_test_types domains)).
  destruct (retrieve similarity_search query required)
    as [retrieved|] eqn:Hret; [|done].
  rewrite bind_Ok.
  set (balanced := balanced_selection retrieved required k).
  destruct (score_with_llm llm_scores query balanced)
    as [scores|] eqn:Hsc; [|done].
  rewrite bind_Ok. intros [= <-].
  exists domains, retrieved, scores. split_and!; [done..|].
  assert (rank balanced scores ≡ₚ zip balanced scores) as Hperm.
  { apply sorted_reverse_Permutation. }
  assert ((rank balanced scores).*1 ≡ₚ take (length scores) balanced)
    as Hfst.
  { rewrite <- fst_zip_take. by apply fmap_Permutation. }
  destruct (second_pass_result_inv retrieved required k)
    as [_ Hnd _ Hlen].
  rewrite <- balanced_selection_untruncated in Hnd, Hlen.
  fold balanced in Hnd, Hlen.
  rewrite (emit_all k (rank balanced scores) [] ∅); [done| | | |].
  - assert (len (rank balanced scores) ≤ Z.max 0 k) as Hrl.
    { unfold len in *.
      rewrite <- (length_fmap fst), Hfst, length_take. lia. }
    destruct (rank balanced scores) as [|p l]; [by left|right].
    unfold len in *. simpl in *. lia.
  - unfold urls. rewrite Hfst, fmap_take.
    eapply sublist_NoDup; [exact Hnd|apply sublist_take].
  - rewrite Hfst. apply Forall_take, balanced_selection_have_url.
  - intros d _. set_solver.
Qed.

Lemma example_recommend :
  recommend intent_knowledge scores_by_position search_two_types
    "java developer" 7 = Ok example_recommended.
Proof. vm_compute. reflexivity. Defined.

(** X12. When [recommend] succeeds, it returns one recommendation for each
    balanced candidate that got a score, in the order of the ranking: the
    last loop, with its test of the urls and of [k], removes nothing. A
    reply of the scorer that is shorter than the list of candidates
    shortens the output. *)
Theorem recommend_emits_every_scored
    (llm_intent : string → result (list string))
    (llm_scores : string → list Document → result (list Z))
    (similarity_search : string → Z → option string → result (list Document))
    (query : string) (k : Z) (recommended : list Recommendation.t) :
  recommend llm_intent llm_scores similarity_search query k = Ok recommended →
  ∃ domains retrieved scores,
    detect_query_intent llm_intent query = Ok domains
    ∧ retrieve similarity_search query
        (with_fallback (infer_required_test_types domains)) = Ok retrieved
    ∧ score_with_llm llm_scores query
        (balanced_selection retrieved
           (with_fallback (infer_required_test_types domains)) k) = Ok scores
    ∧ recommended
      = recommendation_of
        <$> (rank (balanced_selection retrieved
                     (with_fallback (infer_required_test_types domains)) k)
               scores).*1
    ∧ len recommended
      = Z.min (len (balanced_selection retrieved
                      (with_fallback (infer_required_test_types domains)) k))
          (len scores).
Proof.
  intros Hrec.
  destruct (recommend_Ok_shape _ _ _ _ _ _ Hrec)
    as (domains & retrieved & scores & Hd & Hr & Hs & ->).
  exists domains, retrieved, scores. split_and!; [done..|].
  unfold len, rank.
  rewrite !length_fmap, (Permutation_length (sorted_reverse_Permutation _ _)).
  rewrite length_zip. lia.
Qed.

Lemma recommend_emits_every_scored_witness :
  ∃ domains retrieved scores,
    detect_query_intent intent_knowledge "java developer" = Ok domains
    ∧ retrieve search_two_types "java developer"
        (with_fallback (infer_required_test_types domains)) = Ok retrieved
    ∧ score_with_llm scores_by_position "java developer"
        (balanced_selection retrieved
           (with_fallback (infer_required_test_types domains)) 7) = Ok scores
    ∧ example_recommended
      = recommendation_of
        <$> (rank (balanced_selection retrieved
                     (with_fallback (infer_required_test_types domains)) 7)
               scores).*1
    ∧ len example_recommended
      = Z.min (len (balanced_selection retrieved
                      (with_fallback (infer_required_test_types domains)) 7))
          (len scores).
Proof.
  exact (recommend_emits_every_scored _ _ _ _ _ _ example_recommend).
Defined.

(** X13. The list that [recommend] returns has at most [max(0, k)]
    recommendations, with pairwise distinct urls. *)
Theorem recommend_bounded_distinct
    (llm_intent : string → result (list string))
    (llm_scores : string → list Document → result (list Z))
    (similarity_search : string → Z → option string → result (list Document))
    (query : string) (k : Z) (recommended : list Recommendation.t) :
  recommend llm_intent llm_scores similarity_search query k = Ok recommended →
  len recommended ≤ Z.max 0 k
  ∧ NoDup (Recommendation.url <$> recommended).
Proof.
  intros Hrec.
  destruct (recommend_Ok_shape _ _ _ _ _ _ Hrec)
    as (domains & retrieved & scores & _ & _ & _ & ->).
  set (required := with_fallback (infer_required_test_types domains)).
  set (balanced := balanced_selection retrieved required k).
  destruct (second_pass_result_inv retrieved required k) as [_ Hnd _ Hlen].
  rewrite <- balanced_selection_untruncated in Hnd, Hlen.
  fold balanced in Hnd, Hlen.
  assert ((rank balanced scores).*1 ≡ₚ take (length scores) balanced)
    as Hfst.
  { rewrite <- fst_zip_take. apply fmap_Permutation.
    apply sorted_reverse_Permutation. }
  split.
  - unfold len in *. rewrite length_fmap, Hfst, length_take. lia.
  - rewrite <- list_fmap_compose.
    change (Recommendation.url ∘ recommendation_of) with url_of.
    rewrite Hfst, fmap_take.
    eapply sublist_NoDup; [exact Hnd|apply sublist_take].
Qed.

Lemma recommend_bounded_distinct_witness :
  len example_recommended ≤ Z.max 0 7
  ∧ NoDup (Recommendation.url <$> example_recommended).
Proof.
  exact (recommend_bounded_distinct _ _ _ _ _ _ example_recommend).
Defined.

Lemma score_with_llm_named
    (llm_scores : string → list Document → result (list Z))
    (query : string) (docs : list Document) (scores : list Z) :
  score_with_llm llm_scores query docs = Ok scores →
  Forall (λ d, is_Some (assessment_name (metadata d))) docs.
Proof.
  unfold score_with_llm.
  destruct (forallb _ docs) eqn:Hall; [|done]. intros _.
  apply Forall_forall. intros d Hd.
  rewrite forallb_forall in Hall. apply list_elem_of_In in Hd.
  by apply (bool_decide_eq_true_1 _), Hall.
Qed.

(** X14. Every recommendation that [recommend] returns has a name: a
    candidate without [assessment_name] makes the scoring, and so the whole
    call, fail with the key error. *)
Theorem recommend_named
    (llm_intent : string → result (list string))
    (llm_scores : string → list Document → result (list Z))
    (similarity_search : string → Z → option string → result (list Document))
    (query : string) (k : Z) (recommended : list Recommendation.t) :
  recommend llm_intent llm_scores similarity_search query k = Ok recommended →
  Forall (λ r, is_Some (Recommendation.name r)) recommended.
Proof.
  intros Hrec.
  destruct (recommend_Ok_shape _ _ _ _ _ _ Hrec)
    as (domains & retrieved & scores & _ & _ & Hsc & ->).
  apply score_with_llm_named in Hsc. rewrite Forall_forall in Hsc.
  apply Forall_forall. intros r (d & -> & Hd)%list_elem_of_fmap.
  simpl. apply Hsc.
  apply list_elem_of_fmap in Hd as ([d' sc] & -> & Hd). simpl.
  assert ((d', sc) ∈ zip
            (balanced_selection retrieved
               (with_fallback (infer_required_test_types domains)) k)
            scores) as Hz.
  { by rewrite <- (sorted_reverse_Permutation snd). }
  by apply elem_of_zip_l in Hz.
Qed.

Lemma recommend_named_witness :
  Forall (λ r, is_Some (Recommendation.name r)) example_recommended.
Proof.
  exact (recommend_named _ _ _ _ _ _ example_recommend).
Defined.

(** ** Ranking of scores already in order *)

Lemma sort_by_sorted {A : Type} (key : A → Z) (l : list A) :
  Sorted (λ x y, key x ≤ key y) l → sort_by key l = l.
Proof.
  induction 1 as [|x l Hl IH Hhd]; simpl; [done|].
  rewrite IH. destruct Hhd as [|y l' Hxy]; simpl; [done|].
  by rewrite bool_decide_eq_true_2.
Qed.

(** X15. When the scores come in descending order (all equal, for one),
    the ranking leaves the balanced selection in its order. *)
Theorem rank_of_descending_scores (balanced : list Document)
    (scores : list Z) :
  Sorted (λ p q, q.2 ≤ p.2) (zip balanced scores) →
  rank balanced scores = zip balanced scores.
Proof.
  intros Hsorted. unfold rank, sorted_reverse.
  rewrite sort_by_sorted; [apply reverse_involutive|].
  by apply (Sorted_reverse (λ p q : Document * Z, q.2 ≤ p.2)).
Qed.

Lemma rank_of_descending_scores_witness :
  rank [doc_a; doc_b; doc_x] [4; 4; 1] = zip [doc_a; doc_b; doc_x] [4; 4; 1].
Proof.
  apply rank_of_descending_scores. simpl.
  repeat constructor; simpl; lia.
Defined.

(** ** The submission file *)

Lemma recommend_length
    (llm_intent : string → result (list string))
    (llm_scores : string → list Document → result (list Z))
    (similarity_search : string → Z → option string → result (list Document))
    (query : string) (k : Z) (recommended : list Recommendation.t) :
  recommend llm_intent llm_scores similarity_search query k = Ok recommended →
  len recommended ≤ Z.max 0 k.
Proof.
  intros Hrec.
  destruct (recommend_Ok_shape _ _ _ _ _ _ Hrec)
    as (domains & retrieved & scores & _ & _ & _ & ->).
  destruct (second_pass_result_inv retrieved
              (with_fallback (infer_required_test_types domains)) k)
    as [_ _ _ Hlen].
  rewrite <- balanced_selection_untruncated in Hlen.
  unfold len, rank in *.
  rewrite !length_fmap, (Permutation_length (sorted_reverse_Permutation _ _)).
  rewrite length_zip. lia.
Qed.

Lemma rows_of_query_wf (q : string) (recs : list Recommendation.t) :
  Forall (λ row, row.1 = q ∧ row.2 ≠ "") (rows_of_query q recs).
Proof.
  apply Forall_forall. intros [q' u] Hin. unfold rows_of_query in Hin.
  apply list_elem_of_omap in Hin as (rec & _ & Hrec).
  destruct (nonempty (Recommendation.url rec)) eqn:Hne; [|done].
  injection Hrec as <- <-. split; [done|]. simpl. intros Heq.
  by rewrite Heq in Hne.
Qed.

Section submission_facts.
Context (llm_intent : string → result (list string))
  (llm_scores : string → list Document → result (list Z))
  (similarity_search : string → Z → option string → result (list Document))
  (read_csv : string → result Embeddings.DataFrame).

Let well_formed (row : string * string) : Prop :=
  row.1 ≠ "" ∧ PyStr.strip row.1 = row.1 ∧ row.2 ≠ "".

Lemma submission_loop_wf (columns : list string) (query_col : string)
    (top_k : Z) (table : list (list string))
    (rows rows' : list (string * string)) :
  Forall well_formed rows →
  submission_loop llm_intent llm_scores similarity_search columns query_col
    top_k table rows = Ok rows' →
  Forall well_formed rows'.
Proof.
  revert rows. induction table as [|row table IH]; intros rows Hrows; simpl.
  { by intros [= <-]. }
  destruct (nonempty (PyStr.strip (cell columns row query_col))) eqn:Hq;
    [|by apply IH].
  destruct (recommend _ _ _ _ _) as [recs|]; [|done].
  rewrite bind_Ok. apply IH. apply Forall_app. split; [done|].
  eapply Forall_impl; [apply rows_of_query_wf|].
  intros [q u] [Hq' Hu]. simpl in *. subst q. unfold well_formed. simpl.
  split_and!; [|apply strip_idemp|done].
  intros Heq. by rewrite Heq in Hq.
Qed.

Lemma submission_loop_top_k (columns : list string) (query_col : string)
    (top_k : Z) (table : list (list string)) (rows : list (string * string)) :
  FINAL_K ≤ top_k →
  submission_loop llm_intent llm_scores similarity_search columns query_col
    top_k table rows
  = submission_loop llm_intent llm_scores similarity_search columns query_col
      FINAL_K table rows.
Proof.
  intros Hk. revert rows.
  induction table as [|row table IH]; intros rows; simpl; [done|].
  destruct (nonempty _); [|by apply IH].
  destruct (recommend _ _ _ _ _) as [recs|] eqn:Hrec; [|done].
  rewrite !bind_Ok. apply recommend_length in Hrec.
  rewrite !slice_to_fits by (unfold FINAL_K in *; lia). apply IH.
Qed.
End submission_facts.

(** X16. Every row that [generate_submission] writes has a non-empty
    query, without white space at its ends, and a non-empty url. *)
Theorem generate_submission_rows
    (llm_intent : string → result (list string))
    (llm_scores : string → list Document → result (list Z))
    (similarity_search : string → Z → option string → result (list Document))
    (read_csv : string → result Embeddings.DataFrame)
    (input_queries_csv : string) (top_k : Z) (rows : list (string * string)) :
  generate_submission llm_intent llm_scores similarity_search read_csv
    input_queries_csv top_k = Ok rows →
  Forall (λ row, row.1 ≠ "" ∧ PyStr.strip row.1 = row.1 ∧ row.2 ≠ "") rows.
Proof.
  unfold generate_submission.
  destruct (read_csv input_queries_csv) as [df|]; [|done]. rewrite bind_Ok.
  destruct (list_find _ _) as [[i query_col]|]; [|done].
  apply submission_loop_wf. constructor.
Qed.

(** X17. A [top_k] of 7 or more changes nothing to the rows written:
    [recommend] is called with its default [k] of 7 and never returns more. *)
Theorem generate_submission_top_k
    (llm_intent : string → result (list string))
    (llm_scores : string → list Document → result (list Z))
    (similarity_search : string → Z → option string → result (list Document))
    (read_csv : string → result Embeddings.DataFrame)
    (input_queries_csv : string) (top_k : Z) :
  FINAL_K ≤ top_k →
  generate_submission llm_intent llm_scores similarity_search read_csv
    input_queries_csv top_k
  = generate_submission llm_intent llm_scores similarity_search read_csv
      input_queries_csv FINAL_K.
Proof.
  intros Hk. unfold generate_submission.
  destruct (read_csv input_queries_csv) as [df|]; [|done]. rewrite !bind_Ok.
  destruct (list_find _ _) as [[i query_col]|]; [|done].
  by apply submission_loop_top_k.
Qed.

Lemma example_generate_submission :
  generate_submission intent_knowledge scores_by_position search_two_types
    (λ _, Ok queries_table) "queries.csv" 10 = Ok example_rows.
Proof. vm_compute. reflexivity. Defined.

Lemma generate_submission_rows_witness :
  Forall (λ row, row.1 ≠ "" ∧ PyStr.strip row.1 = row.1 ∧ row.2 ≠ "")
    example_rows.
Proof.
  exact (generate_submission_rows _ _ _ _ _ _ _ example_generate_submission).
Defined.

Lemma generate_submission_top_k_witness :
  generate_submission intent_knowledge scores_by_position search_two_types
    (λ _, Ok queries_table) "queries.csv" 10
  = generate_submission intent_knowledge scores_by_position search_two_types
      (λ _, Ok queries_table) "queries.csv" FINAL_K.
Proof.
  apply generate_submission_top_k. vm_compute. discriminate.
Defined.

(** ** The description is stripped *)

(** X18. The description that [extract_description] returns has no white
    space at its ends, whatever the text of the document. *)
Theorem extract_description_stripped (doc : Document) :
  PyStr.strip (extract_description doc) = extract_description doc.
Proof.
  unfold extract_description.
  destruct (PyStr.after_first _ _); apply strip_idemp.
Qed.

(** ** The quota of the first pass *)

Lemma capped_step_filled (required : list string) (k target : Z)
    (docs accepted : list Document) :
  len accepted ≤ filled required target accepted →
  len (foldl (capped_step required k target) accepted docs)
  ≤ filled required target (foldl (capped_step required k target) accepted docs).
Proof.
  revert accepted. induction docs as [|doc docs IH]; intros accepted Hinv;
    simpl; [done|].
  apply IH. unfold capped_step.
  destruct (capped_accepts required k target accepted doc) eqn:Hacc; [|done].
  apply andb_true_iff in Hacc as [_ Hspec].
  destruct (spec_accepts_room _ _ _ _ Hspec) as (t & Ht & Hd & Hroom).
  pose proof (filled_accept _ _ _ doc _ Ht Hd Hroom).
  unfold len in *. rewrite length_app. simpl. lia.
Qed.

(** X19. For a set of required codes, the first pass accepts at most
    [|required| * per_type_target] documents in all, and at most
    [max(0, k)]: every accepted document uses a free place of the quota of
    one of its codes at least. *)
Theorem first_pass_quota (docs : list Document) (required : list string)
    (k : Z) :
  NoDup required →
  len (selected (first_pass_result docs required k))
  ≤ Z.min (len required * per_type_target required k) (Z.max 0 k).
Proof.
  intros Hnd. apply Z.min_glb.
  - unfold first_pass_result.
    destruct (first_pass_refines required k (per_type_target required k) docs
                (initial_state required) Hnd (initial_state_tracks required))
      as [-> _].
    change (selected (initial_state required)) with (@nil Document).
    etransitivity; [|apply filled_bound].
    apply capped_step_filled, (filled_nonneg required _ []).
    unfold per_type_target. lia.
  - unfold first_pass_result, first_pass.
    by destruct (loop_until_full_inv k
                   (first_pass_body required (per_type_target required k))
                   docs docs (initial_state required)
                   (first_pass_body_appended _ _) (λ _ H, H)
                   (initial_state_inv k docs required)).
Qed.

Lemma first_pass_quota_witness :
  len (selected (first_pass_result [doc_a; doc_a; doc_b] ["K"; "P"] 7))
  ≤ Z.min (len ["K"; "P"] * per_type_target ["K"; "P"] 7) (Z.max 0 7).
Proof.
  apply first_pass_quota. apply (bool_decide_unpack _). vm_compute. exact I.
Defined.

(** ** Balanced selection: no url is lost when there is room *)

Lemma submseteq_full_Permutation {A : Type} (l1 l2 : list A) :
  l1 ⊆+ l2 → (length l2 ≤ length l1)%nat → l1 ≡ₚ l2.
Proof. apply submseteq_length_Permutation. Qed.

(** X20. When [k] is at least the number of distinct non-empty urls of the
    candidates, the urls of the output of the balanced selection are
    exactly these urls, each once. *)
Theorem balanced_selection_keeps_urls (docs : list Document)
    (required : list string) (k : Z) :
  len (dedup_by_url (List.filter has_url docs)) ≤ k →
  urls (balanced_selection docs required k)
  ≡ₚ urls (dedup_by_url (List.filter has_url docs)).
Proof.
  intros Hroom.
  pose proof (balanced_selection_have_url docs required k) as Hurls.
  rewrite balanced_selection_untruncated in *.
  set (st1 := first_pass_result docs required k) in *.
  destruct (second_pass_result_inv docs required k) as [Hseen Hnd Hsub Hlen].
  fold st1 in Hseen, Hnd, Hsub, Hlen.
  set (S := selected (second_pass k docs st1)) in *.
  set (D := dedup_by_url (List.filter has_url docs)) in *.
  assert (urls S ⊆+ urls D) as Hincl.
  { apply NoDup_submseteq; [done|].
    intros u (d & -> & Hd)%list_elem_of_fmap.
    apply elem_of_urls_dedup_from. split; [|by intros ?%elem_of_nil].
    apply list_elem_of_fmap. exists d. split; [done|].
    apply list_elem_of_In, filter_In. rewrite <- list_elem_of_In.
    rewrite Forall_forall in Hurls. eauto. }
  apply submseteq_full_Permutation; [done|].
  destruct (loop_until_full_exhausts k second_pass_body docs st1
              second_pass_body_appended second_pass_body_sees)
    as [Hfull|Hall].
  - fold (second_pass k docs st1) in Hfull. fold S in Hfull.
    unfold urls, len in *. rewrite !length_fmap. lia.
  - fold (second_pass k docs st1) in Hall.
    apply submseteq_length, NoDup_submseteq; [apply NoDup_urls_dedup_from|].
    intros u [Hu _]%elem_of_urls_dedup_from.
    apply list_elem_of_fmap in Hu as (d & -> & Hd).
    apply list_elem_of_In, filter_In in Hd as [Hd Hurl].
    apply Hseen, Hall; [by apply list_elem_of_In|done].
Qed.

Lemma balanced_selection_keeps_urls_witness :
  urls (balanced_selection [doc_x; doc_nourl; doc_a; doc_x] ["K"] 5)
  ≡ₚ urls (dedup_by_url (List.filter has_url [doc_x; doc_nourl; doc_a; doc_x])).
Proof.
  apply balanced_selection_keeps_urls. vm_compute. discriminate.
Defined.

(** ** Recall at k *)


Lemma slice_to_mono {A : Type} (k k' : Z) (l : list A) (x : A) :
  0 ≤ k ≤ k' → x ∈ slice_to k l → x ∈ slice_to k' l.
Proof.
  intros Hk. unfold slice_to. rewrite !bool_decide_eq_true_2 by lia.
  rewrite !elem_of_take. intros (i & Hi & Hlt). exists i. split; [done|lia].
Qed.

(** X22. For [k] from zero on, a larger [k] never lowers the recall: the
    denominator stays the same and the hits do not decrease. *)
Theorem recall_at_k_monotone (_normalize_url : string → string)
    (relevant predicted : list string) (k k' hits total : Z) :
  0 ≤ k ≤ k' →
  _recall_at_k _normalize_url relevant predicted k = Div hits total →
  ∃ hits', _recall_at_k _normalize_url relevant predicted k'
           = Div hits' total
           ∧ hits ≤ hits'.
Proof.
  intros Hk. unfold _recall_at_k.
  set (rel := relevant_set _normalize_url relevant).
  assert (top_k_set _normalize_url predicted k
          ⊆ top_k_set _normalize_url predicted k') as Hsub.
  { unfold top_k_set. intros u.
    rewrite !elem_of_difference, !elem_of_list_to_set, !list_elem_of_fmap.
    intros [(x & -> & Hx) Hne]. split; [|done].
    exists x. split; [done|]. by eapply slice_to_mono. }
  case_bool_decide as Hrel; [done|].
  case_bool_decide as Htop; [done|]. intros [= <- <-].
  rewrite bool_decide_eq_false_2.
  - eexists. split; [done|].
    apply inj_le, subseteq_size. intros u.
    rewrite !elem_of_intersection. intros [? ?]. split; [done|by apply Hsub].
  - intros Hempty. apply Htop. rewrite Hempty in Hsub.
    apply leibniz_equiv, elem_of_equiv_empty. intros u Hu.
    by apply Hsub, elem_of_empty in Hu.
Qed.

Lemma recall_at_k_monotone_witness :
  ∃ hits', _recall_at_k PyStr.lower ["A"; "b "; "c"] ["b "; "x"; "a"] 3
           = Div hits' 3
           ∧ 1 ≤ hits'.
Proof.
  apply (recall_at_k_monotone PyStr.lower ["A"; "b "; "c"] ["b "; "x"; "a"]
           1 3 1 3).
  - lia.
  - vm_compute. reflexivity.
Defined.

(** ** A row without test type *)

(** X23. For a row whose test type is missing, the codes stored are the
    text [nan]: the built document has the one code [nan], none of its
    type flags is set, its text lists no category, and a recommendation
    made from it has [nan] as its test type. *)
Theorem missing_test_type_is_nan (row : Embeddings.CatalogRow.t) :
  Embeddings.CatalogRow.test_type row = None →
  extract_test_types (Embeddings.row_to_document row) = ["nan"]
  ∧ (∀ c, Embeddings.type_flags row !! ("is_type_" +:+ c) ≠ Some true)
  ∧ Embeddings.expand_test_types (Embeddings.CatalogRow.test_type row) = ""
  ∧ Recommendation.test_type
      (recommendation_of (Embeddings.row_to_document row)) = ["nan"].
Proof.
  intros Hnone.
  assert (extract_test_types (Embeddings.row_to_document row) = ["nan"])
    as Hcodes.
  { unfold extract_test_types, Embeddings.row_to_document,
      Embeddings.raw_codes. simpl. by rewrite Hnone. }
  split_and!.
  - done.
  - intros c Hflag. apply type_flags_true_code in Hflag as Hc.
    change (Embeddings.row_codes row)
      with (extract_test_types (Embeddings.row_to_document row)) in Hc.
    rewrite Hcodes in Hc. apply list_elem_of_singleton in Hc as ->.
    unfold Embeddings.type_flags in Hflag.
    apply elem_of_list_to_map_2, list_elem_of_fmap in Hflag
      as (code & Heq & Hcode).
    pose proof (f_equal fst Heq) as Hk. simpl in Hk.
    apply flag_key_inj in Hk as <-.
    apply list_elem_of_fmap in Hcode as ([key v] & Hkey & Hkv).
    simpl in Hkey. subst key.
    apply elem_of_map_to_list in Hkv. vm_compute in Hkv. discriminate.
  - by rewrite Hnone.
  - unfold recommendation_of, to_recommendation. simpl.
    change (extract_test_types
              {| page_content := Embeddings.page_content_of row;
                 metadata := metadata (Embeddings.row_to_document row) |})
      with (extract_test_types (Embeddings.row_to_document row)).
    by rewrite Hcodes.
Qed.

(** ** Balanced selection of a balanced selection *)

Section again.
Context (required : list string) (k target : Z).

Local Abbreviation step := (capped_step required k target).

Lemma capped_fold_extends (docs accepted : list Document) :
  ∃ l, foldl step accepted docs = accepted ++ l
       ∧ foldl step accepted l = accepted ++ l
       ∧ Forall (λ d, has_url d = true) l.
Proof.
  revert accepted. induction docs as [|doc docs IH]; intros accepted; simpl.
  { exists []. by rewrite app_nil_r. }
  destruct (IH (step accepted doc)) as (l & Hl & Hl' & Hurls).
  destruct (capped_accepts required k target accepted doc) eqn:Hacc.
  - assert (step accepted doc = accepted ++ [doc]) as Hs
      by (unfold capped_step; by rewrite Hacc).
    rewrite Hs in *. exists (doc :: l). simpl.
    rewrite Hs, Hl, Hl', <- !app_assoc. split_and!; [done..|].
    constructor; [|done].
    apply andb_true_iff in Hacc as [Hacc _].
    apply andb_true_iff in Hacc as [_ Hne]. by rewrite has_url_nonempty.
  - assert (step accepted doc = accepted) as Hs
      by (unfold capped_step; by rewrite Hacc).
    rewrite Hs in *. exists l. done.
Qed.

Lemma capped_accepts_stays_false (accepted l : list Document)
    (doc : Document) :
  capped_accepts required k target accepted doc = false →
  url_of doc ∉ urls (accepted ++ l) →
  capped_accepts required k target (accepted ++ l) doc = false.
Proof.
  unfold capped_accepts, spec_accepts. intros Hfalse Hnew.
  assert (url_of doc ∉ urls accepted) as Hnew'.
  { intros Hin. apply Hnew. unfold urls in *. rewrite fmap_app.
    apply elem_of_app. by left. }
  rewrite (bool_decide_eq_true_2 _ Hnew') in Hfalse.
  rewrite (bool_decide_eq_true_2 _ Hnew).
  destruct (nonempty (url_of doc)); [|by rewrite andb_false_r].
  case_bool_decide as Hlen; simpl in *.
  - assert (existsb
              (λ t, bool_decide (t ∈ extract_test_types doc)
                    && bool_decide (accept_count t (accepted ++ l) < target))
              required = false) as ->; [|by rewrite andb_false_r].
    apply not_true_is_false. intros Hex.
    apply existsb_exists in Hex as (t & Ht & Hc).
    apply andb_true_iff in Hc as [Hd Hc]. apply bool_decide_eq_true in Hc.
    assert (accept_count t accepted ≤ accept_count t (accepted ++ l)).
    { unfold accept_count, len. rewrite List.filter_app, length_app. lia. }
    assert (existsb
              (λ t, bool_decide (t ∈ extract_test_types doc)
                    && bool_decide (accept_count t accepted < target))
              required = true) as Hex; [|by rewrite Hex in Hfalse].
    apply existsb_exists. exists t. split; [done|].
    rewrite Hd. simpl. apply bool_decide_eq_true. lia.
  - rewrite bool_decide_eq_false_2; [done|].
    unfold len in *. rewrite length_app. lia.
Qed.

Lemma capped_fold_rejected (docs accepted : list Document) (doc : Document) :
  doc ∈ docs → url_of doc ∉ urls (foldl step accepted docs) →
  capped_accepts required k target (foldl step accepted docs) doc = false.
Proof.
  revert accepted. induction docs as [|d docs IH]; intros accepted Hin Hnew.
  { by apply elem_of_nil in Hin. }
  simpl in *. apply elem_of_cons in Hin as [->|Hin]; [|by apply IH].
  destruct (capped_fold_extends docs (step accepted d)) as (l & Hl & _).
  rewrite Hl in *. unfold capped_step in *.
  destruct (capped_accepts required k target accepted d) eqn:Hacc.
  - exfalso. apply Hnew. unfold urls. rewrite !fmap_app. simpl.
    apply elem_of_app. left. apply elem_of_app. right. by left.
  - by apply capped_accepts_stays_false.
Qed.

Lemma capped_fold_all_rejected (accepted fill : list Document) :
  Forall (λ d, capped_accepts required k target accepted d = false) fill →
  foldl step accepted fill = accepted.
Proof.
  induction 1 as [|d fill Hd Hfill IH]; simpl; [done|].
  assert (step accepted d = accepted) as ->; [|done].
  unfold capped_step. by rewrite Hd.
Qed.
End again.

Lemma elem_of_dedup_from (seen : list string) (docs : list Document)
    (d : Document) :
  d ∈ dedup_from seen docs → d ∈ docs ∧ url_of d ∉ seen.
Proof.
  revert seen. induction docs as [|doc docs IH]; intros seen; simpl.
  { by intros ?%elem_of_nil. }
  case_bool_decide as Hin.
  - intros [? ?]%IH. split; [by right|done].
  - intros [->|[? Hn]%IH]%elem_of_cons; [split; [by left|done]|].
    split; [by right|]. intros ?. apply Hn. by right.
Qed.

Lemma dedup_from_seen_prefix (seen : list string) (l1 l2 : list Document) :
  Forall (λ d, url_of d ∈ seen) l1 →
  dedup_from seen (l1 ++ l2) = dedup_from seen l2.
Proof.
  induction 1 as [|d l1 Hd Hl1 IH]; simpl; [done|].
  by rewrite bool_decide_eq_true_2.
Qed.

Lemma dedup_from_take (seen : list string) (docs : list Document) (n : nat) :
  dedup_from seen (take n (dedup_from seen docs))
  = take n (dedup_from seen docs).
Proof.
  revert seen n. induction docs as [|doc docs IH]; intros seen n; simpl.
  { by rewrite take_nil. }
  case_bool_decide as Hin; [apply IH|].
  destruct n as [|n]; simpl; [done|].
  by rewrite bool_decide_eq_false_2, IH.
Qed.

Lemma filter_has_url_all (l : list Document) :
  Forall (λ d, has_url d = true) l → List.filter has_url l = l.
Proof.
  induction 1 as [|d l Hd Hl IH]; simpl; [done|]. by rewrite Hd, IH.
Qed.

Lemma balanced_selection_form (docs : list Document) (required : list string)
    (k : Z) :
  NoDup required →
  balanced_selection docs required k
  = capped_first_pass required k docs
    ++ take (Z.to_nat k - length (capped_first_pass required k docs))%nat
         (dedup_from (urls (capped_first_pass required k docs))
            (List.filter has_url docs)).
Proof.
  intros Hnd. rewrite balanced_selection_untruncated.
  unfold first_pass_result.
  destruct (first_pass_refines required k (per_type_target required k) docs
              (initial_state required) Hnd (initial_state_tracks required))
    as [Hsel [Hseen _]].
  rewrite (second_pass_dedup k docs _
             (urls (capped_first_pass required k docs))).
  - by rewrite Hsel.
  - intros u. rewrite Hseen, Hsel. done.
Qed.

(** X24. For a set of required codes, the balanced selection of a balanced
    selection, with the same codes and the same [k], is that selection:
    selecting again changes neither the documents nor their order. *)
Theorem balanced_selection_idempotent (docs : list Document)
    (required : list string) (k : Z) :
  NoDup required →
  balanced_selection (balanced_selection docs required k) required k
  = balanced_selection docs required k.
Proof.
  intros Hnd. rewrite (balanced_selection_form docs) by done.
  set (target := per_type_target required k).
  set (A := capped_first_pass required k docs).
  set (n := (Z.to_nat k - length A)%nat).
  set (F := take n (dedup_from (urls A) (List.filter has_url docs))).
  rewrite balanced_selection_form by done.
  destruct (capped_fold_extends required k target docs [])
    as (l & Hl & Hl' & Hurls).
  simpl in Hl, Hl'. change (A = l) in Hl. rewrite <- Hl in Hl', Hurls.
  clear l Hl.
  assert (∀ d, d ∈ F → d ∈ docs ∧ has_url d = true ∧ url_of d ∉ urls A)
    as HF.
  { intros d Hd. unfold F in Hd.
    eapply elem_of_sublist in Hd; [|apply sublist_take].
    apply elem_of_dedup_from in Hd as [Hd Hnew].
    apply list_elem_of_In, filter_In in Hd as [Hd Hurl].
    by rewrite <- list_elem_of_In in Hd. }
  assert (capped_first_pass required k (A ++ F) = A) as HA.
  { unfold capped_first_pass. rewrite foldl_app. fold target.
    rewrite Hl'. apply capped_fold_all_rejected.
    apply Forall_forall. intros d Hd.
    destruct (HF d Hd) as (Hdocs & _ & Hnew).
    by apply (capped_fold_rejected required k target docs [] d). }
  rewrite HA. fold n. f_equal.
  rewrite filter_has_url_all.
  2:{ apply Forall_app. split; [done|].
      apply Forall_forall. intros d Hd. by destruct (HF d Hd) as (_ & ? & _). }
  rewrite dedup_from_seen_prefix.
  2:{ apply Forall_forall. intros d Hd. unfold urls.
      by apply list_elem_of_fmap_2. }
  unfold F. rewrite dedup_from_take, take_take. f_equal. lia.
Qed.

Lemma balanced_selection_idempotent_witness :
  balanced_selection
    (balanced_selection [doc_x; doc_b; doc_a; doc_x] ["K"; "P"] 3)
    ["K"; "P"] 3
  = balanced_selection [doc_x; doc_b; doc_a; doc_x] ["K"; "P"] 3.
Proof.
  apply balanced_selection_idempotent.
  apply (bool_decide_unpack _). vm_compute. exact I.
Defined.

Lemma missing_test_type_is_nan_witness :
  extract_test_types (Embeddings.row_to_document row_without_type) = ["nan"].
Proof.
  exact (proj1 (missing_test_type_is_nan row_without_type eq_refl)).
Defined.
